(** * Flight-data extraction: schema reconciliation and row filters

    A shallow embedding of [src/preprocessing/flight_data_extract_by_month.py]:
    the column normaliser [_norm], the alias table [CANON_MAP], the renaming
    pass [standardize_columns], the row filters [filter_domestic] and
    [keep_aa], the projection [select_output_cols], the chunk loop of
    [process_month], the appending writer [append_write] and the retry loop
    [download_zip]; and of [src/preprocessing/filter_aa_by_airports.py]:
    [_pick_column] and [filter_file].

    Python dictionaries are finite maps ([gmap]); a pandas frame is a list of
    column labels together with its rows. *)

From Stdlib Require Import String Ascii NArith.
From stdpp Require Import gmap strings list fin_maps.

Local Open Scope string_scope.
Local Open Scope list_scope.

(** ** Strings

    A Python [str] is a sequence of code points.  Column names are modelled
    as [string]s whose characters are the code points below 256; the result
    of [str.upper] may leave that range (the capitals of U+00B5 and U+00FF
    do), so [upper] returns code points as numbers. *)

Module PyStr.

Definition codepoint := N.

(** [str.upper] on one code point below 256.  The only multi-character
    capital in this range is that of U+00DF, which is the two letters SS. *)
Definition upper_cp (c : ascii) : list codepoint :=
  let n := N_of_ascii c in
  if (97 <=? n)%N && (n <=? 122)%N then [(n - 32)%N]
  else if (n =? 181)%N then [924%N]
  else if (n =? 223)%N then [83%N; 83%N]
  else if (224 <=? n)%N && (n <=? 254)%N && negb (n =? 247)%N then [(n - 32)%N]
  else if (n =? 255)%N then [376%N]
  else [n].

Definition upper (s : string) : list codepoint :=
  flat_map upper_cp (list_ascii_of_string s).

(** The character class [A-Z0-9] of the regular expression. *)
Definition in_AZ09 (n : codepoint) : bool :=
  ((48 <=? n)%N && (n <=? 57)%N) || ((65 <=? n)%N && (n <=? 90)%N).

(** [re.sub(r"[^A-Z0-9]", "", u)]: what is left lies below 256. *)
Definition re_sub_non_AZ09 (u : list codepoint) : string :=
  string_of_list_ascii (map ascii_of_N (List.filter in_AZ09 u)).

(** ASCII letters and digits, and the ASCII-only case change, as the
    specification words them. *)
Definition is_ascii_alnum (c : ascii) : bool :=
  let n := N_of_ascii c in
  in_AZ09 n || ((97 <=? n)%N && (n <=? 122)%N).

Definition ascii_upper_char (c : ascii) : ascii :=
  let n := N_of_ascii c in
  if (97 <=? n)%N && (n <=? 122)%N then ascii_of_N (n - 32) else c.

Definition is_ascii (c : ascii) : bool := (N_of_ascii c <? 128)%N.

End PyStr.

(** ** Configuration constants *)

Definition OUTPUT_COLS : list string :=
  [ "FL_DATE";
    "OP_UNIQUE_CARRIER";
    "MKT_UNIQUE_CARRIER";
    "OP_CARRIER_FL_NUM";
    "ORIGIN"; "DEST";
    "CRS_DEP_TIME"; "DEP_TIME"; "WHEELS_OFF";
    "CRS_ARR_TIME"; "ARR_TIME"; "WHEELS_ON";
    "CANCELLED"; "DIVERTED" ].

Definition US_TERRITORY_STATE_ABR : list string :=
  [ "PR"; "VI"; "GU"; "AS"; "MP" ].

(** The alias table, in the declaration order of the dictionary literal
    (a Python dictionary iterates in insertion order). *)
Definition CANON_MAP : list (string * list string) :=
  [ ("FL_DATE", ["FL_DATE"; "FLIGHT_DATE"; "FLIGHTDATE"]);
    ("OP_UNIQUE_CARRIER",
      ["OP_UNIQUE_CARRIER"; "OPERATING_AIRLINE"; "OPERATINGCARRIER"; "OP_CARRIER";
       "OPERATING_AIRLINE_IATA_CODE"; "OPERATINGAIRLINEIATACODE"]);
    ("MKT_UNIQUE_CARRIER",
      ["MKT_UNIQUE_CARRIER"; "MARKETING_AIRLINE_NETWORK"; "MARKETINGCARRIER";
       "MKT_CARRIER"; "MKTUNIQUECARRIER";
       "REPORTING_AIRLINE"; "IATA_CODE_REPORTING_AIRLINE"]);
    ("OP_CARRIER_FL_NUM",
      ["OP_CARRIER_FL_NUM"; "OP_CARRIER_FLNUM";
       "FL_NUM"; "FLIGHT_NUM"; "FLIGHT_NUMBER";
       "FLIGHT_NUMBER_REPORTING_AIRLINE"; "FLIGHT_NUMBER_OPERATING_AIRLINE";
       "FLIGHT_NUMBER_REPORTINGAIRLINE"; "FLIGHT_NUMBER_OPERATINGAIRLINE"]);
    ("ORIGIN", ["ORIGIN"; "ORIGINAIRPORT"; "ORIGIN_AIRPORT"]);
    ("DEST", ["DEST"; "DESTAIRPORT"; "DEST_AIRPORT"]);
    ("ORIGIN_STATE_ABR",
      ["ORIGIN_STATE_ABR"; "ORIGIN_STATE_ABBREVIATION"; "ORIGINSTATE"; "ORIGIN_STATE"]);
    ("DEST_STATE_ABR",
      ["DEST_STATE_ABR"; "DEST_STATE_ABBREVIATION"; "DESTSTATE"; "DEST_STATE"]);
    ("ORIGIN_COUNTRY_NAME",
      ["ORIGIN_COUNTRY_NAME"; "ORIGINCOUNTRYNAME"; "ORIGIN_COUNTRY"]);
    ("DEST_COUNTRY_NAME",
      ["DEST_COUNTRY_NAME"; "DESTCOUNTRYNAME"; "DEST_COUNTRY"]);
    ("CRS_DEP_TIME", ["CRS_DEP_TIME"; "CRSDEPTIME"]);
    ("DEP_TIME", ["DEP_TIME"; "DEPTIME"]);
    ("WHEELS_OFF", ["WHEELS_OFF"; "WHEELSOFF"]);
    ("CRS_ARR_TIME", ["CRS_ARR_TIME"; "CRSARRTIME"]);
    ("ARR_TIME", ["ARR_TIME"; "ARRTIME"]);
    ("WHEELS_ON", ["WHEELS_ON"; "WHEELSON"]);
    ("CANCELLED", ["CANCELLED"; "CANCELLED_"]);
    ("DIVERTED", ["DIVERTED"; "DIVERTED_"]) ].

(** ** Frames

    A cell read with [dtype=str] is a string or the missing value [NaN];
    [astype("string")] turns the missing value into [NA]. *)

Inductive value : Type :=
| Str (s : string)
| NaN
| NA.

#[global] Instance value_eq_dec : EqDecision value.
Proof. solve_decision. Defined.

Record DataFrame : Type := mkDF {
  columns : list string;
  rows : list (list value)
}.

#[global] Instance DataFrame_eq_dec : EqDecision DataFrame.
Proof. solve_decision. Defined.

(** [pd.DataFrame()]: no columns and no rows. *)
Definition empty_frame : DataFrame := mkDF [] [].

(** [df.empty]: some axis has length zero. *)
Definition empty (df : DataFrame) : bool :=
  match columns df, rows df with
  | [], _ | _, [] => true
  | _, _ => false
  end.

(** ** Column normaliser and renaming pass *)

(** [_norm]: uppercase, then delete whatever is not in [A-Z0-9]. *)
Definition _norm (s : string) : string :=
  PyStr.re_sub_non_AZ09 (PyStr.upper s).

(** The key the specification describes: delete whatever is not an ASCII
    letter or digit, then uppercase. *)
Definition norm_spec (s : string) : string :=
  string_of_list_ascii
    (map PyStr.ascii_upper_char (List.filter PyStr.is_ascii_alnum (list_ascii_of_string s))).

(** [{_norm(c): c for c in df.columns}]: a later column replaces an earlier
    one under the same key. *)
Definition norm_to_actual (cols : list string) : gmap string string :=
  foldl (λ m c, <[_norm c := c]> m) ∅ cols.

(** The inner loop over one alias list: stop at the first alias whose key is
    in [norm_to_actual], and hand back the column stored there. *)
Fixpoint first_alias (n2a : gmap string string) (aliases : list string)
  : option string :=
  match aliases with
  | [] => None
  | a :: rest =>
      match n2a !! _norm a with
      | Some actual => Some actual
      | None => first_alias n2a rest
      end
  end.

(** The outer loop: one assignment [rename_map[actual] = canon] for each
    canonical field with a matching alias. *)
Definition rename_map (table : list (string * list string))
    (n2a : gmap string string) : gmap string string :=
  foldl (λ rm entry,
           match first_alias n2a entry.2 with
           | Some actual => <[actual := entry.1]> rm
           | None => rm
           end) ∅ table.

(** [df.rename(columns=rename_map)]: every label that is a key of the map is
    replaced, the others and all rows are left alone. *)
Definition rename (rm : gmap string string) (df : DataFrame) : DataFrame :=
  mkDF (map (λ c, default c (rm !! c)) (columns df)) (rows df).

Definition standardize_columns_with (table : list (string * list string))
    (df : DataFrame) : DataFrame :=
  let rm := rename_map table (norm_to_actual (columns df)) in
  if decide (rm = ∅) then df else rename rm df.

Definition standardize_columns (df : DataFrame) : DataFrame :=
  standardize_columns_with CANON_MAP df.

(** ** Exceptions and the error monad *)

(** [KeyError text have] is [KeyError(f"{text}{have}")], the list being the
    column labels interpolated into the message.  [LabelError c] stands for
    the exception pandas raises when the label [c] cannot be used the way
    the code uses it.  Where the code reads a Series with [df[c]] and
    several columns carry [c], pandas hands back a frame; the comparison of
    that frame is a frame again, and [df.loc] does not take it as a mask
    but raises.  The model raises [LabelError c] at the read.  Where the
    code selects columns with [df.loc[:, cols]], a repeated label is no
    error (every column that carries it is selected), and [LabelError c]
    is raised only for a label no column carries. *)
Inductive exn : Type :=
| KeyError (text : string) (have : list string)
| LabelError (label : string).

Inductive outcome (A : Type) : Type :=
| Ok (a : A)
| Raise (e : exn).
Arguments Ok {A} a.
Arguments Raise {A} e.

(** Sequencing: the first exception ends the computation. *)
#[global] Instance outcome_bind : MBind outcome := λ A B k m,
  match m with
  | Ok a => k a
  | Raise e => Raise e
  end.

(** ** Series and boolean masks *)

(** The positions of the columns labelled [c]. *)
Fixpoint positions_from (i : nat) (c : string) (cols : list string) : list nat :=
  match cols with
  | [] => []
  | c' :: rest =>
      if decide (c' = c) then i :: positions_from (S i) c rest
      else positions_from (S i) c rest
  end.

Definition position (df : DataFrame) (c : string) : outcome nat :=
  match positions_from 0 c (columns df) with
  | [i] => Ok i
  | _ => Raise (LabelError c)
  end.

Definition cell (i : nat) (r : list value) : value := default NaN (r !! i).

(** [df[c]] *)
Definition getitem (df : DataFrame) (c : string) : outcome (list value) :=
  i ← position df c; Ok (map (cell i) (rows df)).

(** [v == s] on one cell: a missing value equals nothing. *)
Definition eq_str (s : string) (v : value) : bool :=
  match v with
  | Str s' => bool_decide (s' = s)
  | NaN | NA => false
  end.

Definition notna (v : value) : bool :=
  match v with
  | Str _ => true
  | NaN | NA => false
  end.

Definition isin (set : list string) (v : value) : bool :=
  match v with
  | Str s => bool_decide (s ∈ set)
  | NaN | NA => false
  end.

Definition mask_and (m1 m2 : list bool) : list bool := zip_with andb m1 m2.
Definition mask_not (m : list bool) : list bool := map negb m.

(** [df.loc[mask]]: the rows whose mask entry is true, in order. *)
Fixpoint select_rows (rs : list (list value)) (mask : list bool)
  : list (list value) :=
  match rs, mask with
  | r :: rs', b :: mask' =>
      if b then r :: select_rows rs' mask' else select_rows rs' mask'
  | _, _ => []
  end.

Definition loc (df : DataFrame) (mask : list bool) : DataFrame :=
  mkDF (columns df) (select_rows (rows df) mask).

(** ** The row filters *)

Definition has_column (df : DataFrame) (c : string) : bool :=
  bool_decide (c ∈ columns df).

(** [filter_domestic]: the country names decide when both country columns
    exist, else the state abbreviations when both state columns exist, else
    nothing is filtered. *)
Definition filter_domestic (df : DataFrame) (include_territories : bool)
  : outcome DataFrame :=
  let df := standardize_columns df in
  if has_column df "ORIGIN_COUNTRY_NAME" && has_column df "DEST_COUNTRY_NAME" then
    o ← getitem df "ORIGIN_COUNTRY_NAME";
    d ← getitem df "DEST_COUNTRY_NAME";
    let mask := mask_and (map (eq_str "UNITED STATES") o)
                         (map (eq_str "UNITED STATES") d) in
    Ok (loc df mask)
  else if has_column df "ORIGIN_STATE_ABR" && has_column df "DEST_STATE_ABR" then
    o ← getitem df "ORIGIN_STATE_ABR";
    d ← getitem df "DEST_STATE_ABR";
    let mask := mask_and (map notna o) (map notna d) in
    if include_territories then Ok (loc df mask)
    else
      let mask2 := mask_and (mask_not (map (isin US_TERRITORY_STATE_ABR) o))
                            (mask_not (map (isin US_TERRITORY_STATE_ABR) d)) in
      Ok (loc df (mask_and mask mask2))
  else Ok df.

(** The literal the carrier column is compared with. *)
Definition target_code : string := "AA".

Definition missing_carrier : string := "Missing carrier column; have: ".

(** The choice of the carrier column: [None] is Python's [None]. *)
Definition carrier_column (cols : list string) (use_marketing : bool)
  : option string :=
  let primary := if use_marketing then "MKT_UNIQUE_CARRIER" else "OP_UNIQUE_CARRIER" in
  if bool_decide (primary ∈ cols) then Some primary
  else
    let candidates :=
      (if bool_decide (primary ≠ "MKT_UNIQUE_CARRIER") then ["MKT_UNIQUE_CARRIER"] else [])
      ++ (if bool_decide (primary ≠ "OP_UNIQUE_CARRIER") then ["OP_UNIQUE_CARRIER"] else []) in
    head (List.filter (λ c, bool_decide (c ∈ cols)) candidates).

(** [keep_aa]: [if not col] rejects [None] and the empty string alike. *)
Definition keep_aa (df : DataFrame) (use_marketing : bool) : outcome DataFrame :=
  let df := standardize_columns df in
  match carrier_column (columns df) use_marketing with
  | None => Raise (KeyError missing_carrier (columns df))
  | Some col =>
      if decide (col = "") then Raise (KeyError missing_carrier (columns df))
      else s ← getitem df col; Ok (loc df (map (eq_str target_code) s))
  end.

(** ** Projection *)

Definition astype_string (v : value) : value :=
  match v with
  | Str s => Str s
  | NaN | NA => NA
  end.

Fixpoint mapM {A B : Type} (f : A → outcome B) (l : list A) : outcome (list B) :=
  match l with
  | [] => Ok []
  | a :: l' => b ← f a; bs ← mapM f l'; Ok (b :: bs)
  end.

(** The columns that carry the label [c], each with its label: label and
    position, in the order of the frame. *)
Definition labelled (cols : list string) (c : string) : list (string * nat) :=
  map (pair c) (positions_from 0 c cols).

(** [df.loc[:, cols]]: for each listed label in turn, every column that
    carries it; a listed label that no column carries is an error. *)
Definition loc_columns (df : DataFrame) (cols : list string) : outcome DataFrame :=
  picked ← mapM (λ c, match labelled (columns df) c with
                       | [] => Raise (LabelError c)
                       | ps => Ok ps
                       end) cols;
  let picked := List.concat picked in
  Ok (mkDF picked.*1 (map (λ r, map (λ p, cell p.2 r) picked) (rows df))).

(** The cells at the positions [ps] of a row, cast to strings. *)
Definition cast_cells (ps : list nat) (r : list value) : list value :=
  foldl (λ r i, <[i := astype_string (cell i r)]> r) r ps.

(** [out[c] = out[c].astype("string")] when [c] is a column of [out]: every
    column that carries [c] is replaced by its cast. *)
Definition cast_column (out : DataFrame) (c : string) : DataFrame :=
  if has_column out c then
    mkDF (columns out) (map (cast_cells (positions_from 0 c (columns out))) (rows out))
  else out.

Definition cast_columns (out : DataFrame) (cs : list string) : DataFrame :=
  foldl cast_column out cs.

Definition TIME_COLS : list string :=
  ["CRS_DEP_TIME"; "DEP_TIME"; "WHEELS_OFF"; "CRS_ARR_TIME"; "ARR_TIME"; "WHEELS_ON"].

(** [select_output_cols]: [.copy()] does not change the value. *)
Definition select_output_cols (df : DataFrame) : outcome DataFrame :=
  let df := standardize_columns df in
  let cols := List.filter (has_column df) OUTPUT_COLS in
  match cols with
  | [] => Ok empty_frame
  | _ =>
      out ← loc_columns df cols;
      let out := cast_columns out TIME_COLS in
      Ok (cast_column out "OP_CARRIER_FL_NUM")
  end.

(** ** The chunk loop of [process_month] *)

(** The body of the loop over the chunks of one month, up to the test of
    [chunk.empty]. *)
Definition process_chunk (chunk : DataFrame) (use_marketing include_territories : bool)
  : outcome DataFrame :=
  let chunk := standardize_columns chunk in
  chunk ← filter_domestic chunk include_territories;
  chunk ← keep_aa chunk use_marketing;
  select_output_cols chunk.

(** One state per iteration: the list [parts] as it stands after the chunk
    has been handled.  An exception leaves the loop and the function. *)
Fixpoint chunk_loop (reader : list DataFrame) (use_marketing include_territories : bool)
    (parts : list DataFrame) : outcome (list DataFrame) :=
  match reader with
  | [] => Ok parts
  | chunk :: rest =>
      chunk' ← process_chunk chunk use_marketing include_territories;
      chunk_loop rest use_marketing include_territories
        (if empty chunk' then parts else parts ++ [chunk'])
  end.

(** Rows the loop keeps alive in [parts]. *)
Definition held_rows (parts : list DataFrame) : nat :=
  sum_list_with (λ p, length (rows p)) parts.

(** ** The appending writer and the driver loop *)

Inductive line : Type :=
| Header (labels : list string)
| Data (cells : list value).

(** [df.to_csv(out_path, mode="a", index=False, header=h)] appends these
    lines to the file. *)
Definition to_csv (df : DataFrame) (header : bool) : list line :=
  (if header then [Header (columns df)] else []) ++ map Data (rows df).

Definition append_write (df : DataFrame) (out : list line) (header_written : bool)
  : list line * bool :=
  if empty df then (out, header_written)
  else (out ++ to_csv df (negb header_written), true).

(** The [--append_out] loop of [main]: the file starts empty, and a month
    whose processing raised is reported and skipped. *)
Definition main_step (st : list line * bool) (m : outcome DataFrame) : list line * bool :=
  match m with
  | Ok dfm => append_write dfm st.1 st.2
  | Raise _ => st
  end.

Definition main_append (months : list (outcome DataFrame)) : list line * bool :=
  foldl main_step ([], false) months.

(** * Notions used in the statements *)

(** ** Two facts about an alias table

    Every alias list starts with its own canonical name, and no two
    canonical fields have aliases with the same key. *)

Definition self_first (table : list (string * list string)) : Prop :=
  Forall (λ e, head e.2 = Some e.1) table.

Definition keys_apart (table : list (string * list string)) : Prop :=
  Forall (λ e1, Forall (λ e2,
    Forall (λ a1, Forall (λ a2, _norm a1 = _norm a2 → e1 = e2) e2.2) e1.2)
    table) table.

(** A column list is settled when every scan either finds nothing or stops
    at the canonical name itself. *)
Definition settled (table : list (string * list string)) (cols : list string) : Prop :=
  ∀ e, e ∈ table →
    first_alias (norm_to_actual cols) e.2 = None
    ∨ first_alias (norm_to_actual cols) e.2 = Some e.1.

(** ** The normaliser on ASCII names *)

Definition ascii_only (s : string) : Prop :=
  Forall (λ a, PyStr.is_ascii a = true) (list_ascii_of_string s).

(** ** Binding of one canonical field, in the words of the specification *)

(** [c] is the column bound by the first alias of the list whose key is the
    key of some column; of several columns with that key, the last is bound. *)
Definition binds (cols aliases : list string) (c : string) : Prop :=
  ∃ pre a post, aliases = pre ++ a :: post
    ∧ (∀ a' x, a' ∈ pre → x ∈ cols → _norm x ≠ _norm a')
    ∧ _norm c = _norm a
    ∧ ∃ l1 l2, cols = l1 ++ c :: l2 ∧ ∀ x, x ∈ l2 → _norm x ≠ _norm a.

Definition no_match (cols aliases : list string) : Prop :=
  ∀ a x, a ∈ aliases → x ∈ cols → _norm x ≠ _norm a.

(** ** Reading a column of a frame with distinct labels *)

(** The place of the first column labelled [c]. *)
Fixpoint label_index (c : string) (cols : list string) : nat :=
  match cols with
  | [] => 0
  | c' :: rest => if decide (c' = c) then 0 else S (label_index c rest)
  end.

(** The cell of row [r] under the label [c]. *)
Definition field (cols : list string) (c : string) (r : list value) : value :=
  cell (label_index c cols) r.

(** ** Cell predicates *)

Definition non_null (v : value) : Prop := v ≠ NaN ∧ v ≠ NA.

Definition state_in (set : list string) (v : value) : Prop :=
  match v with
  | Str s => s ∈ set
  | NaN | NA => False
  end.

#[global] Instance state_in_dec set v : Decision (state_in set v).
Proof. destruct v; simpl; apply _. Defined.

(** ** The domestic filter *)

Inductive signal : Type :=
| CountryNameSignal
| StateAbbrSignal
| NoSignal.

(** Which branch a list of column labels selects. *)
Definition domestic_signal (cols : list string) : signal :=
  if bool_decide ("ORIGIN_COUNTRY_NAME" ∈ cols ∧ "DEST_COUNTRY_NAME" ∈ cols)
  then CountryNameSignal
  else if bool_decide ("ORIGIN_STATE_ABR" ∈ cols ∧ "DEST_STATE_ABR" ∈ cols)
  then StateAbbrSignal
  else NoSignal.

(** The rows each branch keeps. *)
Definition domestic_row (cols : list string) (include_territories : bool)
    (sig : signal) (r : list value) : Prop :=
  match sig with
  | CountryNameSignal =>
      field cols "ORIGIN_COUNTRY_NAME" r = Str "UNITED STATES"
      ∧ field cols "DEST_COUNTRY_NAME" r = Str "UNITED STATES"
  | StateAbbrSignal =>
      non_null (field cols "ORIGIN_STATE_ABR" r)
      ∧ non_null (field cols "DEST_STATE_ABR" r)
      ∧ (include_territories = false →
         ¬ state_in US_TERRITORY_STATE_ABR (field cols "ORIGIN_STATE_ABR" r)
         ∧ ¬ state_in US_TERRITORY_STATE_ABR (field cols "DEST_STATE_ABR" r))
  | NoSignal => True
  end.

#[global] Instance domestic_row_dec cols it sig r : Decision (domestic_row cols it sig r).
Proof. destruct sig; simpl; unfold non_null; apply _. Defined.

(** ** The carrier filter *)

Definition MKT : string := "MKT_UNIQUE_CARRIER".
Definition OP : string := "OP_UNIQUE_CARRIER".

(** ** Projection *)

Definition STRING_COLS : list string := TIME_COLS ++ ["OP_CARRIER_FL_NUM"].

(** The cell of the projected frame under label [c], for row [r] of the
    renamed frame: the cell itself, cast where the source casts it. *)
Definition projected_cell (cols : list string) (r : list value) (c : string) : value :=
  if bool_decide (c ∈ STRING_COLS) then astype_string (field cols c r)
  else field cols c r.

(** The effect on a cell labelled [c'] of casting the columns [cs] in turn. *)
Fixpoint apply_casts (cs : list string) (c' : string) (v : value) : value :=
  match cs with
  | [] => v
  | c :: cs' => apply_casts cs' c' (if decide (c' = c) then astype_string v else v)
  end.

(** The labels of [OUTPUT_COLS] that are labels of [cols], in the order of
    [OUTPUT_COLS]. *)
Definition kept_labels (cols : list string) : list string :=
  List.filter (λ c, bool_decide (c ∈ cols)) OUTPUT_COLS.

(** The columns the projection keeps of a frame with the labels [cols]: for
    each kept label in turn, every column that carries it. *)
Definition kept_columns (cols : list string) : list (string * nat) :=
  flat_map (labelled cols) (kept_labels cols).

(** What the projection keeps of a row. *)
Definition project (cols : list string) (r : list value) : list value :=
  map (λ p, apply_casts STRING_COLS p.1 (cell p.2 r)) (kept_columns cols).

(** ** The appending writer *)

Definition is_header (l : line) : bool :=
  match l with
  | Header _ => true
  | Data _ => false
  end.

(** A month that contributes nothing: processing raised, or its frame is
    empty. *)
Definition skipped (m : outcome DataFrame) : Prop :=
  match m with
  | Ok dfm => empty dfm = true
  | Raise _ => True
  end.

(** The data lines of the months, in order. *)
Definition data_lines (months : list (outcome DataFrame)) : list line :=
  flat_map (λ m, match m with
                 | Ok dfm => if empty dfm then [] else map Data (rows dfm)
                 | Raise _ => []
                 end) months.

(** ** The chunk loop *)

Definition nonempty (df : DataFrame) : bool := negb (empty df).

Definition rows_read (reader : list DataFrame) : nat :=
  sum_list_with (λ c, length (rows c)) reader.

Definition largest_chunk (reader : list DataFrame) : nat :=
  max_list_with (λ c, length (rows c)) reader.

(** The bound of the specification, on the rows held in [parts]: one chunk
    and a constant, whatever the number of chunks. *)
Definition bounded_by_one_batch : Prop :=
  ∃ k, ∀ reader use_marketing include_territories parts,
    chunk_loop reader use_marketing include_territories [] = Ok parts →
    (held_rows parts ≤ largest_chunk reader + k)%nat.

(** ** Batches used in the examples *)

Definition scenario_A : DataFrame :=
  mkDF ["FlightDate"; "Operating_Airline"; "Origin"; "Dest";
        "OriginCountryName"; "DestCountryName"]
       [ [Str "2023-01-01"; Str "AA"; Str "DFW"; Str "LGA"; Str "UNITED STATES"; Str "UNITED STATES"];
         [Str "2023-01-01"; Str "UA"; Str "DFW"; Str "LGA"; Str "UNITED STATES"; Str "UNITED STATES"];
         [Str "2023-01-02"; Str "AA"; Str "DFW"; Str "YYZ"; Str "UNITED STATES"; Str "CANADA"] ].

Definition scenario_D : DataFrame :=
  mkDF ["OriginStateAbr"; "DestStateAbr"] [ [Str "PR"; Str "NY"] ].

(** A chunk of one row that passes every stage. *)
Definition one_row_chunk : DataFrame :=
  mkDF ["OP_UNIQUE_CARRIER"] [ [Str "AA"] ].

(** The batch of scenario D with two more rows. *)
Definition scenario_D_mixed : DataFrame :=
  mkDF ["OriginStateAbr"; "DestStateAbr"]
       [ [Str "PR"; Str "NY"]; [Str "TX"; Str "NY"]; [NaN; Str "NY"] ].

Definition reporting_batch : DataFrame :=
  mkDF ["Reporting_Airline"; "Origin"]
       [ [Str "AA"; Str "DFW"]; [Str "aa"; Str "DFW"]; [Str "UA"; Str "ORD"]; [NaN; Str "LGA"] ].

Definition no_carrier_batch : DataFrame :=
  mkDF ["FlightDate"; "Origin"; "Tail_Number"] [ [Str "2023-01-01"; Str "DFW"; Str "N123AA"] ].

Definition canonical_batch : DataFrame :=
  mkDF ["FL_DATE"; "OP_UNIQUE_CARRIER"; "ORIGIN"; "DEST"]
       [ [Str "2023-01-01"; Str "AA"; Str "DFW"; Str "LGA"] ].

Definition raw_batch : DataFrame :=
  mkDF ["FlightDate"; "Reporting_Airline"] [ [Str "2023-01-01"; Str "AA"] ].

(** Batches with distinct labels that the renaming pass turns into batches
    with a repeated label. *)
Definition repeated_country_batch : DataFrame :=
  mkDF ["ORIGIN_COUNTRY_NAME"; "OriginCountryName"; "DEST_COUNTRY_NAME"]
       [ [Str "UNITED STATES"; Str "UNITED STATES"; Str "UNITED STATES"] ].

Definition repeated_carrier_batch : DataFrame :=
  mkDF ["OP_UNIQUE_CARRIER"; "op_unique_carrier"]
       [ [Str "AA"; Str "AA"]; [Str "UA"; Str "UA"] ].

Definition repeated_date_batch : DataFrame :=
  mkDF ["FL_DATE"; "fl_date"; "OP_UNIQUE_CARRIER"]
       [ [Str "2023-01-01"; Str "2023-01-02"; Str "AA"] ].

(** A batch none of whose labels is a canonical name. *)
Definition unreconciled_batch : DataFrame :=
  mkDF ["Dest"; "Tail_Number"; "FlightDate"] [ [Str "LGA"; Str "N1"; Str "2023-01-01"] ].

Definition country_batch : DataFrame :=
  mkDF ["OriginCountryName"; "DestCountryName"; "OriginStateAbr"; "DestStateAbr"]
       [ [Str "UNITED STATES"; Str "UNITED STATES"; Str "PR"; Str "NY"];
         [Str "CANADA"; Str "UNITED STATES"; Str "ON"; Str "NY"] ].

(** * Notions used in the further properties *)

(** ** Renaming, label by label *)

(** The label that the renaming pass gives to a column labelled [c] of a
    frame with the labels [cols]. *)
Definition renamed (cols : list string) (c : string) : string :=
  default c (rename_map CANON_MAP (norm_to_actual cols) !! c).

(** [c] is the last column with its key. *)
Definition last_with_key (cols : list string) (c : string) : Prop :=
  ∃ l1 l2, cols = l1 ++ c :: l2 ∧ ∀ x, x ∈ l2 → _norm x ≠ _norm c.

(** Some alias of some canonical field has the key of [c]. *)
Definition alias_key (c : string) : Prop :=
  ∃ e a, e ∈ CANON_MAP ∧ a ∈ e.2 ∧ _norm c = _norm a.

Definition key_char (a : ascii) : Prop := PyStr.in_AZ09 (N_of_ascii a) = true.

(** ** What the labels decide

    Each stage reads the labels of its frame to decide what to do with a
    row; the functions below are those decisions, taken once for a list of
    labels. *)

(** [position] looks at the labels only. *)
Definition labels_position (cols : list string) (c : string) : outcome nat :=
  position (mkDF cols []) c.

(** The row test of [filter_domestic] for a frame with the labels [cols]. *)
Definition domestic_keep (cols : list string) (include_territories : bool)
  : outcome (list value → bool) :=
  if bool_decide ("ORIGIN_COUNTRY_NAME" ∈ cols) && bool_decide ("DEST_COUNTRY_NAME" ∈ cols) then
    i ← labels_position cols "ORIGIN_COUNTRY_NAME";
    j ← labels_position cols "DEST_COUNTRY_NAME";
    Ok (λ r, eq_str "UNITED STATES" (cell i r) && eq_str "UNITED STATES" (cell j r))
  else if bool_decide ("ORIGIN_STATE_ABR" ∈ cols) && bool_decide ("DEST_STATE_ABR" ∈ cols) then
    i ← labels_position cols "ORIGIN_STATE_ABR";
    j ← labels_position cols "DEST_STATE_ABR";
    if include_territories then Ok (λ r, notna (cell i r) && notna (cell j r))
    else Ok (λ r, (notna (cell i r) && notna (cell j r))
                  && (negb (isin US_TERRITORY_STATE_ABR (cell i r))
                      && negb (isin US_TERRITORY_STATE_ABR (cell j r))))
  else Ok (λ _, true).

(** The row test of [keep_aa]. *)
Definition carrier_keep (cols : list string) (use_marketing : bool)
  : outcome (list value → bool) :=
  match carrier_column cols use_marketing with
  | None => Raise (KeyError missing_carrier cols)
  | Some col =>
      if decide (col = "") then Raise (KeyError missing_carrier cols)
      else i ← labels_position cols col; Ok (λ r, eq_str target_code (cell i r))
  end.

(** How many columns carry the label [c]. *)
Definition occurrences (c : string) (cols : list string) : nat :=
  length (filter (λ x, x = c) cols).

(** What one pass over a chunk does, as decided by its renamed labels: the
    labels of the result, the rows that are kept, and what is kept of a row. *)
Record plan : Type := mkPlan {
  plan_labels : list string;
  plan_keep : list value → bool;
  plan_project : list value → list value
}.

Definition run_plan (p : plan) (rs : list (list value)) : DataFrame :=
  mkDF (plan_labels p) (map (plan_project p) (List.filter (plan_keep p) rs)).

Definition chunk_plan (cols : list string) (use_marketing include_territories : bool)
  : outcome plan :=
  b1 ← domestic_keep cols include_territories;
  b2 ← carrier_keep cols use_marketing;
  Ok (match kept_labels cols with
      | [] => mkPlan [] (λ _, false) id
      | _ => mkPlan (kept_columns cols).*1 (λ r, b1 r && b2 r) (project cols)
      end).

(** The rows of all parts, in order. *)
Definition selected_rows (o : outcome (list DataFrame)) : outcome (list (list value)) :=
  match o with
  | Ok parts => Ok (flat_map rows parts)
  | Raise e => Raise e
  end.

(** * Further functions of the sources *)

(** ** [download_zip]

    The network is a function from the number of the attempt to what the
    request of that attempt does: [None] when it raises a
    [requests.RequestException], else the chunks handed out by
    [iter_content].  What the function does besides returning is recorded
    as a list of events. *)

Inductive event : Type :=
| Get (attempt : nat)
| Warn (attempt : nat)
| Sleep (attempt : nat).

(** [Sleep k] is [time.sleep(1.5 * k)], counted here in half seconds. *)
Definition half_seconds (e : event) : nat :=
  match e with
  | Sleep k => 3 * k
  | Get _ | Warn _ => 0
  end.

(** [buf.getvalue()] after the loop that writes every non-empty chunk. *)
Definition body (chunks : list (list ascii)) : list ascii :=
  List.concat (List.filter (λ c, negb (bool_decide (c = []))) chunks).

(** The loop over [range(1, retries + 1)], from a given attempt on. *)
Fixpoint download_attempts (get : nat → option (list (list ascii))) (retries : Z)
    (attempts : list nat) : option (list ascii) * list event :=
  match attempts with
  | [] => (None, [])
  | attempt :: rest =>
      match get attempt with
      | Some chunks => (Some (body chunks), [Get attempt])
      | None =>
          let res := download_attempts get retries rest in
          (res.1,
           Get attempt :: Warn attempt
           :: (if bool_decide (Z.of_nat attempt < retries)%Z then [Sleep attempt] else [])
           ++ res.2)
      end
  end.

Definition download_zip (get : nat → option (list (list ascii))) (retries : Z)
  : option (list ascii) * list event :=
  download_attempts get retries (seq 1 (Z.to_nat retries)).

Definition is_get (e : event) : bool :=
  match e with Get _ => true | _ => false end.

Definition is_sleep (e : event) : bool :=
  match e with Sleep _ => true | _ => false end.

(** ** [_pick_column] of [filter_aa_by_airports.py] *)

Definition same_upper (a b : string) : bool :=
  bool_decide (PyStr.upper a = PyStr.upper b).

Fixpoint _pick_column (columns candidates : list string) : option string :=
  match candidates with
  | [] => None
  | cand :: rest =>
      if bool_decide (PyStr.upper cand ∈ map PyStr.upper columns) then
        match List.find (λ c, same_upper c cand) columns with
        | Some c => Some c
        | None => _pick_column columns rest
        end
      else _pick_column columns rest
  end.

(** [c] is the first column that equals, case aside, the first candidate
    that equals some column, case aside. *)
Definition picks (columns candidates : list string) (c : string) : Prop :=
  ∃ pre cand post, candidates = pre ++ cand :: post
    ∧ (∀ cand' x, cand' ∈ pre → x ∈ columns → PyStr.upper x ≠ PyStr.upper cand')
    ∧ ∃ l1 l2, columns = l1 ++ c :: l2
        ∧ PyStr.upper c = PyStr.upper cand
        ∧ ∀ x, x ∈ l1 → PyStr.upper x ≠ PyStr.upper cand.

(** ** [filter_file] of [filter_aa_by_airports.py]

    The input file is given by its header [cols] and the row chunks the
    reader hands out (one chunk when [chunksize] is not set); that the
    input exists is presupposed.  The output file is [None] while it does
    not exist. *)

(** [str.isspace] on a code point below 256. *)
Definition is_space (a : ascii) : bool :=
  let n := N_of_ascii a in
  ((9 <=? n)%N && (n <=? 13)%N) || ((28 <=? n)%N && (n <=? 32)%N)
  || (n =? 133)%N || (n =? 160)%N.

Fixpoint lstrip (l : list ascii) : list ascii :=
  match l with
  | a :: l' => if is_space a then lstrip l' else l
  | [] => []
  end.

(** [str.strip()] *)
Definition strip (s : string) : string :=
  string_of_list_ascii (rev (lstrip (rev (lstrip (list_ascii_of_string s))))).

Definition DEFAULT_AIRPORTS : list string :=
  ["DFW"; "LGA"; "JFK"; "PHL"; "DCA"; "CLT"; "MIA"; "ORD"; "PHX"; "LAX"].

Definition CARRIER_CANDIDATES : list string :=
  ["UNIQUE_CARRIER"; "OP_UNIQUE_CARRIER"; "MKT_UNIQUE_CARRIER"; "REPORTING_AIRLINE"; "CARRIER"].

Definition ORIGIN_CANDIDATES : list string :=
  ["ORIGIN"; "ORIGIN_AIRPORT"; "ORIGIN_AIRPORT_ID"; "ORIGIN_AIRPORT_SEQ_ID"].

Definition DEST_CANDIDATES : list string :=
  ["DEST"; "DEST_AIRPORT"; "DEST_AIRPORT_ID"; "DEST_AIRPORT_SEQ_ID"].

(** [a.strip().upper()] *)
Definition code_key (a : string) : list PyStr.codepoint := PyStr.upper (strip a).

(** [.fillna("").astype(str).str.strip().str.upper()] on one cell. *)
Definition cell_key (v : value) : list PyStr.codepoint :=
  code_key (match v with Str s => s | NaN | NA => "" end).

(** The truth value of an optional string: [None] and the empty string are
    false. *)
Definition truthy (o : option string) : bool :=
  match o with
  | Some s => negb (bool_decide (s = ""))
  | None => false
  end.

Definition no_carrier_column : string :=
  "No carrier column found in input. Available columns: ".

Definition no_origin_dest : string :=
  "Origin/Dest columns not found. Available columns: ".

(** The loop over the chunks, with the output file and the flag
    [header_written] as state. *)
Fixpoint filter_chunks (cols : list string) (carrier_col origin_col dest_col : string)
    (airports_set : list (list PyStr.codepoint)) (carrier_key : list PyStr.codepoint)
    (file : option (list line)) (header_written : bool)
    (reader : list (list (list value))) : option (list line) * outcome unit :=
  match reader with
  | [] => (file, Ok tt)
  | rs :: rest =>
      let chunk := mkDF cols (map (map astype_string) rs) in
      match (carr ← getitem chunk carrier_col;
             orig ← getitem chunk origin_col;
             dst ← getitem chunk dest_col;
             Ok (mask_and
                   (mask_and (map (λ v, bool_decide (cell_key v = carrier_key)) carr)
                             (map (λ v, bool_decide (cell_key v ∈ airports_set)) orig))
                   (map (λ v, bool_decide (cell_key v ∈ airports_set)) dst))) with
      | Raise e => (file, Raise e)
      | Ok mask =>
          let out_chunk := loc chunk mask in
          if empty out_chunk then
            filter_chunks cols carrier_col origin_col dest_col airports_set carrier_key
              file header_written rest
          else
            filter_chunks cols carrier_col origin_col dest_col airports_set carrier_key
              (Some (default [] file ++ to_csv out_chunk (negb header_written))) true rest
      end
  end.

Definition filter_file (prev : option (list line)) (cols : list string)
    (reader : list (list (list value))) (airports : list string) (carrier : string)
  : option (list line) * outcome unit :=
  let airports_set := map code_key airports in
  let carrier_col := _pick_column cols CARRIER_CANDIDATES in
  let origin_col := _pick_column cols ORIGIN_CANDIDATES in
  let dest_col := _pick_column cols DEST_CANDIDATES in
  if negb (truthy carrier_col) then (prev, Raise (KeyError no_carrier_column cols))
  else if negb (truthy origin_col) || negb (truthy dest_col)
  then (prev, Raise (KeyError no_origin_dest cols))
  else
    filter_chunks cols (default "" carrier_col) (default "" origin_col) (default "" dest_col)
      airports_set (PyStr.upper carrier) None false reader.

(** The test a row of [filter_file] has to pass. *)
Definition airport_row (cols : list string) (cc oc dc : string)
    (airports : list string) (carrier : string) (r : list value) : Prop :=
  cell_key (field cols cc r) = PyStr.upper carrier
  ∧ cell_key (field cols oc r) ∈ map code_key airports
  ∧ cell_key (field cols dc r) ∈ map code_key airports.

(** What the output file holds for a list of selected rows. *)
Definition written (cols : list string) (rs : list (list value)) : option (list line) :=
  match rs with
  | [] => None
  | _ => Some (Header cols :: map Data rs)
  end.

(** * Properties *)

(** ** The error monad *)

Lemma bind_Ok {A B : Type} (a : A) (k : A → outcome B) : (Ok a ≫= k) = k a.
Proof. reflexivity. Qed.

(** ** The dictionary [norm_to_actual] *)

Lemma norm_to_actual_snoc (cols : list string) (c : string) :
  norm_to_actual (cols ++ [c]) = <[_norm c := c]> (norm_to_actual cols).
Proof. unfold norm_to_actual. by rewrite foldl_app. Qed.

(** A key holds the last column that normalises to it. *)
Lemma norm_to_actual_Some (cols : list string) (n c : string) :
  norm_to_actual cols !! n = Some c ↔
  ∃ l1 l2, cols = l1 ++ c :: l2 ∧ _norm c = n ∧ ∀ x, x ∈ l2 → _norm x ≠ n.
Proof.
  induction cols as [|y cols IH] using rev_ind.
  - split; [done|]. intros (l1 & l2 & E & _). by destruct l1.
  - rewrite norm_to_actual_snoc, lookup_insert.
    case_decide as Hy.
    + split.
      * intros [= <-]. exists cols, []. split_and!; [done..|]. intros x Hx. inversion Hx.
      * intros (l1 & l2 & E & Hn & Hl2).
        destruct l2 as [|z l2 _] using rev_ind.
        { apply app_inj_tail in E as [_ ->]. done. }
        rewrite app_comm_cons, app_assoc in E.
        apply app_inj_tail in E as [_ ->].
        exfalso. apply (Hl2 z); [|done]. apply elem_of_app. right. by left.
    + rewrite IH. split.
      * intros (l1 & l2 & -> & Hn & Hl2). exists l1, (l2 ++ [y]).
        split_and!; [by rewrite <- app_assoc|done|].
        intros x [Hx|Hx%list_elem_of_singleton]%elem_of_app; [by apply Hl2|by subst].
      * intros (l1 & l2 & E & Hn & Hl2).
        destruct l2 as [|z l2 _] using rev_ind.
        { apply app_inj_tail in E as [_ ->]. done. }
        rewrite app_comm_cons, app_assoc in E.
        apply app_inj_tail in E as [-> ->].
        exists l1, l2. split_and!; [done..|].
        intros x Hx. apply Hl2, elem_of_app. by left.
Qed.

Lemma norm_to_actual_elem (cols : list string) (n c : string) :
  norm_to_actual cols !! n = Some c → c ∈ cols ∧ _norm c = n.
Proof.
  intros (l1 & l2 & -> & Hn & _)%norm_to_actual_Some. split; [|done].
  apply elem_of_app. right. by left.
Qed.

Lemma norm_to_actual_None (cols : list string) (n : string) :
  norm_to_actual cols !! n = None ↔ ∀ x, x ∈ cols → _norm x ≠ n.
Proof.
  induction cols as [|y cols IH] using rev_ind.
  - split; [|done]. intros _ x Hx. inversion Hx.
  - rewrite norm_to_actual_snoc, lookup_insert. case_decide as Hy.
    + split; [done|]. intros H. exfalso. apply (H y); [|done].
      apply elem_of_app. right. by left.
    + rewrite IH. split.
      * intros H x [Hx|Hx%list_elem_of_singleton]%elem_of_app; [by apply H|by subst].
      * intros H x Hx. apply H, elem_of_app. by left.
Qed.

Lemma norm_to_actual_is_Some (cols : list string) (x : string) :
  x ∈ cols → is_Some (norm_to_actual cols !! _norm x).
Proof.
  intros Hx. destruct (norm_to_actual cols !! _norm x) eqn:E; [by eexists|].
  exfalso. by eapply norm_to_actual_None.
Qed.

(** ** The scan of one alias list *)

Lemma first_alias_Some (n2a : gmap string string) (aliases : list string) (c : string) :
  first_alias n2a aliases = Some c ↔
  ∃ pre a post, aliases = pre ++ a :: post
    ∧ (∀ a', a' ∈ pre → n2a !! _norm a' = None)
    ∧ n2a !! _norm a = Some c.
Proof.
  induction aliases as [|a0 aliases IH]; simpl.
  - split; [done|]. intros (pre & a & post & E & _). by destruct pre.
  - destruct (n2a !! _norm a0) as [c0|] eqn:E0.
    + split.
      * intros [= <-]. exists [], a0, aliases. split_and!; [done| |done].
        intros a' Ha'. inversion Ha'.
      * intros (pre & a & post & E & Hpre & Ha).
        destruct pre as [|p pre]; simplify_eq/=; [congruence|].
        rewrite Hpre in E0; [done|by left].
    + rewrite IH. split.
      * intros (pre & a & post & -> & Hpre & Ha). exists (a0 :: pre), a, post.
        split_and!; [done| |done].
        intros a' [->|Ha']%elem_of_cons; [done|by apply Hpre].
      * intros (pre & a & post & E & Hpre & Ha).
        destruct pre as [|p pre]; simplify_eq/=.
        exists pre, a, post. split_and!; [done| |done].
        intros a' Ha'. apply Hpre. by right.
Qed.

Lemma first_alias_elem (n2a : gmap string string) (aliases : list string) (c : string) :
  first_alias n2a aliases = Some c → ∃ a, a ∈ aliases ∧ n2a !! _norm a = Some c.
Proof.
  intros (pre & a & post & -> & _ & Ha)%first_alias_Some. exists a. split; [|done].
  apply elem_of_app. right. by left.
Qed.

Lemma first_alias_None (n2a : gmap string string) (aliases : list string) :
  first_alias n2a aliases = None ↔ ∀ a, a ∈ aliases → n2a !! _norm a = None.
Proof.
  induction aliases as [|a0 aliases IH]; simpl.
  - split; [|done]. intros _ a Ha. inversion Ha.
  - destruct (n2a !! _norm a0) as [c0|] eqn:E0.
    + split; [done|]. intros H. rewrite H in E0; [done|by left].
    + rewrite IH. split.
      * intros H a [->|Ha]%elem_of_cons; [done|by apply H].
      * intros H a Ha. apply H. by right.
Qed.

(** ** The dictionary [rename_map] *)

Lemma rename_map_snoc (table : list (string * list string)) (e : string * list string)
    (n2a : gmap string string) :
  rename_map (table ++ [e]) n2a =
  match first_alias n2a e.2 with
  | Some actual => <[actual := e.1]> (rename_map table n2a)
  | None => rename_map table n2a
  end.
Proof. unfold rename_map. by rewrite foldl_app. Qed.

(** Every entry of [rename_map] was written for some canonical field whose
    scan stopped at that column. *)
Lemma rename_map_Some_inv (table : list (string * list string))
    (n2a : gmap string string) (c canon : string) :
  rename_map table n2a !! c = Some canon →
  ∃ aliases, (canon, aliases) ∈ table ∧ first_alias n2a aliases = Some c.
Proof.
  induction table as [|[cn al] table IH] using rev_ind; [done|].
  rewrite rename_map_snoc. simpl.
  assert (∀ aliases, (canon, aliases) ∈ table → (canon, aliases) ∈ table ++ [(cn, al)])
    as Hmono by (intros; apply elem_of_app; by left).
  destruct (first_alias n2a al) as [actual|] eqn:E.
  - rewrite lookup_insert. case_decide as Hc.
    + intros [= <-]. subst. exists al. split; [|done].
      apply elem_of_app. right. by left.
    + intros (aliases & ? & ?)%IH. eauto.
  - intros (aliases & ? & ?)%IH. eauto.
Qed.

Lemma rename_map_Some (table : list (string * list string))
    (n2a : gmap string string) (c canon : string) (aliases : list string) :
  (canon, aliases) ∈ table →
  first_alias n2a aliases = Some c →
  (∀ e, e ∈ table → first_alias n2a e.2 = Some c → e.1 = canon) →
  rename_map table n2a !! c = Some canon.
Proof.
  induction table as [|[cn al] table IH] using rev_ind; [intros H; inversion H|].
  intros Hin Hfa Honly. rewrite rename_map_snoc. simpl.
  destruct (first_alias n2a al) as [actual|] eqn:E.
  - rewrite lookup_insert. case_decide as Hc.
    + subst. f_equal. apply (Honly (cn, al)); [|done].
      apply elem_of_app. right. by left.
    + apply elem_of_app in Hin as [Hin|Hin%list_elem_of_singleton].
      * apply IH; [done..|]. intros e He. apply Honly, elem_of_app. by left.
      * simplify_eq.
  - apply elem_of_app in Hin as [Hin|Hin%list_elem_of_singleton].
    + apply IH; [done..|]. intros e He. apply Honly, elem_of_app. by left.
    + simplify_eq.
Qed.

Lemma rename_empty (df : DataFrame) : rename ∅ df = df.
Proof.
  destruct df as [cols rs]. unfold rename. simpl. f_equal.
  induction cols as [|c cols IH]; [done|]. simpl. by rewrite lookup_empty, IH.
Qed.

(** The test [if rename_map:] only saves a renaming that changes nothing. *)
Lemma standardize_columns_with_rename (table : list (string * list string))
    (df : DataFrame) :
  standardize_columns_with table df
  = rename (rename_map table (norm_to_actual (columns df))) df.
Proof.
  unfold standardize_columns_with. case_decide as E; [|done].
  by rewrite E, rename_empty.
Qed.

(** ** Renaming twice *)

Section Reconcile.
Variable table : list (string * list string).
Hypothesis Hself : self_first table.
Hypothesis Hapart : keys_apart table.

Lemma self_alias (e : string * list string) :
  e ∈ table → ∃ rest, e.2 = e.1 :: rest.
Proof.
  intros He. unfold self_first in Hself. rewrite Forall_forall in Hself.
  specialize (Hself e He). destruct (e.2) as [|a rest]; simplify_eq/=. eauto.
Qed.

Lemma self_alias_elem (e : string * list string) : e ∈ table → e.1 ∈ e.2.
Proof. intros [rest ->]%self_alias. by left. Qed.

Lemma apart (e1 e2 : string * list string) (a1 a2 : string) :
  e1 ∈ table → e2 ∈ table → a1 ∈ e1.2 → a2 ∈ e2.2 →
  _norm a1 = _norm a2 → e1 = e2.
Proof.
  intros H1 H2 Ha1 Ha2. unfold keys_apart in Hapart.
  rewrite Forall_forall in Hapart. specialize (Hapart e1 H1).
  rewrite Forall_forall in Hapart. specialize (Hapart e2 H2).
  rewrite Forall_forall in Hapart. specialize (Hapart a1 Ha1).
  rewrite Forall_forall in Hapart. by apply Hapart.
Qed.

(** A settled column list is renamed to itself. *)
Lemma settled_rename_map (cols : list string) (c canon : string) :
  settled table cols →
  rename_map table (norm_to_actual cols) !! c = Some canon → c = canon.
Proof.
  intros Hs (aliases & Hin & Hfa)%rename_map_Some_inv.
  destruct (Hs _ Hin) as [E|E]; simpl in E; congruence.
Qed.

Lemma settled_fixed (df : DataFrame) :
  settled table (columns df) → standardize_columns_with table df = df.
Proof.
  intros Hs. rewrite standardize_columns_with_rename.
  destruct df as [cols rs]. unfold rename. simpl in *. f_equal.
  transitivity (map id cols); [|apply map_id]. apply map_ext_in. intros c _.
  destruct (rename_map table (norm_to_actual cols) !! c) as [canon|] eqn:E; [|done].
  simpl. symmetry. by eapply settled_rename_map.
Qed.

(** Columns that are all canonical names are settled. *)
Lemma canonical_settled (cols : list string) :
  (∀ c, c ∈ cols → c ∈ table.*1) → settled table cols.
Proof.
  intros Hcanon e He.
  assert (∀ a x, a ∈ e.2 → norm_to_actual cols !! _norm a = Some x → x = e.1) as Hkey.
  { intros a x Ha [Hx Hn]%norm_to_actual_elem.
    apply Hcanon, list_elem_of_fmap in Hx as (e' & -> & He').
    assert (e' = e) as ->; [|done].
    eapply apart; [done..|by apply self_alias_elem|exact Ha|done]. }
  destruct (first_alias (norm_to_actual cols) e.2) as [x|] eqn:E; [|by left].
  right. apply first_alias_elem in E as (a & Ha & Hx). f_equal. eauto.
Qed.

Section OnePass.
Variable cols : list string.

Let rm := rename_map table (norm_to_actual cols).
Let f := λ c : string, default c (rm !! c).

(** The column a canonical field is bound to is renamed to it. *)
Lemma bound_renamed (e : string * list string) (y : string) :
  e ∈ table → first_alias (norm_to_actual cols) e.2 = Some y → rm !! y = Some e.1.
Proof.
  intros He Hy. destruct e as [canon aliases].
  eapply rename_map_Some; [done..|].
  intros e' He' Hy'.
  apply first_alias_elem in Hy as (a & Ha & [_ Hn]%norm_to_actual_elem).
  apply first_alias_elem in Hy' as (a' & Ha' & [_ Hn']%norm_to_actual_elem).
  assert (e' = (canon, aliases)) as ->; [|done].
  eapply apart; [done..|congruence].
Qed.

(** A renamed column whose key is an alias key of [e] is either the
    canonical name of [e] or an untouched column. *)
Lemma renamed_key (e : string * list string) (a c : string) :
  e ∈ table → a ∈ e.2 → c ∈ cols → _norm (f c) = _norm a →
  (f c = e.1 ∧ rm !! c = Some e.1) ∨ (f c = c ∧ rm !! c = None).
Proof.
  intros He Ha Hc Hn. unfold f in *.
  destruct (rm !! c) as [canon|] eqn:E; [|by right]. left. simpl in *.
  apply rename_map_Some_inv in E as (aliases & Hin & _).
  assert ((canon, aliases) = e) as <-; [|done].
  eapply apart; [done..|by apply (self_alias_elem _ Hin)|exact Ha|done].
Qed.

(** If some column carries an alias key of [e], the canonical name of
    [e] is a column after the pass. *)
Lemma canon_appears (e : string * list string) (a x : string) :
  e ∈ table → a ∈ e.2 → x ∈ cols → _norm x = _norm a → e.1 ∈ map f cols.
Proof.
  intros He Ha Hx Hn.
  destruct (first_alias (norm_to_actual cols) e.2) as [y|] eqn:E.
  - pose proof (bound_renamed _ _ He E) as Hy.
    apply first_alias_elem in E as (a' & _ & [Hyc _]%norm_to_actual_elem).
    apply list_elem_of_fmap. exists y. split; [|done]. unfold f. by rewrite Hy.
  - exfalso. rewrite first_alias_None in E. specialize (E a Ha).
    rewrite norm_to_actual_None in E. by apply (E x).
Qed.

Lemma canon_key_after (e : string * list string) (x : string) :
  e ∈ table → norm_to_actual (map f cols) !! _norm e.1 = Some x → x = e.1.
Proof.
  intros He Hx.
  destruct (norm_to_actual cols !! _norm e.1) as [z|] eqn:Ez.
  - (* the last column with this key is renamed in place *)
    assert (first_alias (norm_to_actual cols) e.2 = Some z) as Hfa.
    { destruct (self_alias _ He) as [rest ->]. simpl. by rewrite Ez. }
    pose proof (bound_renamed _ _ He Hfa) as Hz.
    apply norm_to_actual_Some in Ez as (l1 & l2 & Ecols & Hnz & Hl2).
    assert (norm_to_actual (map f cols) !! _norm e.1 = Some e.1) as Hx'.
    { apply norm_to_actual_Some. exists (map f l1), (map f l2).
      split_and!; [|done|].
      - rewrite Ecols, map_app. simpl. unfold f at 2. by rewrite Hz.
      - intros y (c & -> & Hc)%list_elem_of_fmap Hny.
        assert (c ∈ cols) as Hcin.
        { rewrite Ecols. apply elem_of_app. right. by right. }
        destruct (renamed_key e e.1 c He (self_alias_elem _ He) Hcin Hny)
          as [[_ Hrc]|[Hfc _]].
        + apply rename_map_Some_inv in Hrc as (aliases & Hin & Hfc).
          assert ((e.1, aliases) = e) as Ee.
          { eapply apart; [done..|by apply (self_alias_elem _ Hin)
                            |by apply self_alias_elem|done]. }
          rewrite <- Ee in Hfa. simpl in Hfa.
          assert (c = z) as -> by congruence. by apply (Hl2 z).
        + rewrite Hfc in Hny. by apply (Hl2 c). }
    congruence.
  - apply norm_to_actual_elem in Hx as [(c & -> & Hc)%list_elem_of_fmap Hn].
    destruct (renamed_key e e.1 c He (self_alias_elem _ He) Hc Hn)
      as [[Hfc _]|[Hfc _]]; [done|].
    exfalso. rewrite norm_to_actual_None in Ez. apply (Ez c Hc). by rewrite <- Hfc.
Qed.

Lemma alias_key_after (e : string * list string) (a : string) :
  e ∈ table → a ∈ e.2 →
  norm_to_actual (map f cols) !! _norm e.1 = None →
  norm_to_actual (map f cols) !! _norm a = None.
Proof.
  intros He Ha Hnone.
  destruct (norm_to_actual (map f cols) !! _norm a) as [x|] eqn:Ex; [|done].
  exfalso. rewrite norm_to_actual_None in Hnone.
  apply norm_to_actual_elem in Ex as [(c & -> & Hc)%list_elem_of_fmap Hn].
  destruct (renamed_key e a c He Ha Hc Hn) as [[Hfc _]|[Hfc _]].
  - apply (Hnone (f c)); [|by rewrite Hfc].
    apply list_elem_of_fmap. by exists c.
  - rewrite Hfc in Hn.
    apply (Hnone e.1); [|done]. by eapply canon_appears.
Qed.

Lemma renamed_settled : settled table (map f cols).
Proof.
  intros e He. destruct (self_alias _ He) as [rest Erest].
  destruct (norm_to_actual (map f cols) !! _norm e.1) as [x|] eqn:Ex.
  - right. rewrite Erest. simpl. rewrite Ex. f_equal. by apply canon_key_after.
  - left. apply first_alias_None. intros a Ha. by apply (alias_key_after e).
Qed.
End OnePass.

Lemma standardize_settled (df : DataFrame) :
  settled table (columns (standardize_columns_with table df)).
Proof. rewrite standardize_columns_with_rename. apply renamed_settled. Qed.

Lemma standardize_with_idempotent (df : DataFrame) :
  standardize_columns_with table (standardize_columns_with table df)
  = standardize_columns_with table df.
Proof. apply settled_fixed, standardize_settled. Qed.

End Reconcile.

(** The two facts hold of [CANON_MAP]; both are decided by evaluation. *)
Lemma CANON_MAP_self_first : self_first CANON_MAP.
Proof. unfold self_first. apply (bool_decide_unpack _). vm_compute. exact I. Qed.

Lemma CANON_MAP_keys_apart : keys_apart CANON_MAP.
Proof. unfold keys_apart. apply (bool_decide_unpack _). vm_compute. exact I. Qed.

(** ** The normaliser on ASCII names *)

Lemma string_of_list_ascii_app (l1 l2 : list ascii) :
  string_of_list_ascii (l1 ++ l2)
  = (string_of_list_ascii l1 ++ string_of_list_ascii l2)%string.
Proof. induction l1 as [|a l1 IH]; simpl; [done|by rewrite IH]. Qed.

Lemma _norm_cons (a : ascii) (s : string) :
  _norm (String a s) = (PyStr.re_sub_non_AZ09 (PyStr.upper_cp a) ++ _norm s)%string.
Proof.
  unfold _norm, PyStr.re_sub_non_AZ09, PyStr.upper. simpl.
  by rewrite List.filter_app, map_app, string_of_list_ascii_app.
Qed.

Lemma norm_spec_cons (a : ascii) (s : string) :
  norm_spec (String a s)
  = ((if PyStr.is_ascii_alnum a then String (PyStr.ascii_upper_char a) "" else "")
     ++ norm_spec s)%string.
Proof. unfold norm_spec. simpl. by destruct (PyStr.is_ascii_alnum a). Qed.

(** On one ASCII character the two orders of the two steps agree. *)
Lemma upper_then_strip_ascii (a : ascii) :
  PyStr.is_ascii a = true →
  PyStr.re_sub_non_AZ09 (PyStr.upper_cp a)
  = if PyStr.is_ascii_alnum a then String (PyStr.ascii_upper_char a) "" else "".
Proof.
  destruct a as [b0 b1 b2 b3 b4 b5 b6 b7].
  destruct b7; [by destruct b0, b1, b2, b3, b4, b5, b6|].
  intros _. by destruct b0, b1, b2, b3, b4, b5, b6.
Qed.

Lemma _norm_ascii (s : string) : ascii_only s → _norm s = norm_spec s.
Proof.
  unfold ascii_only. induction s as [|a s IH]; [done|]. simpl.
  intros [Ha Hs]%Forall_cons.
  by rewrite _norm_cons, norm_spec_cons, upper_then_strip_ascii, IH.
Qed.

(** ** Binding of one canonical field, in the words of the specification *)

Lemma first_alias_binds (cols aliases : list string) (c : string) :
  first_alias (norm_to_actual cols) aliases = Some c ↔ binds cols aliases c.
Proof.
  rewrite first_alias_Some. unfold binds. split.
  - intros (pre & a & post & -> & Hpre & Ha). exists pre, a, post.
    apply norm_to_actual_Some in Ha as (l1 & l2 & -> & Hn & Hl2).
    split_and!; [done| |done|by eauto].
    intros a' x Ha' Hx. specialize (Hpre a' Ha').
    rewrite norm_to_actual_None in Hpre. by apply Hpre.
  - intros (pre & a & post & -> & Hpre & Hn & l1 & l2 & -> & Hl2).
    exists pre, a, post. split_and!; [done| |].
    + intros a' Ha'. apply norm_to_actual_None. intros x Hx. by apply Hpre.
    + apply norm_to_actual_Some. by exists l1, l2.
Qed.

Lemma first_alias_no_match (cols aliases : list string) :
  first_alias (norm_to_actual cols) aliases = None ↔ no_match cols aliases.
Proof.
  rewrite first_alias_None. unfold no_match. split.
  - intros H a x Ha Hx. specialize (H a Ha). rewrite norm_to_actual_None in H. by apply H.
  - intros H a Ha. apply norm_to_actual_None. intros x Hx. by apply H.
Qed.

Lemma rename_map_no_match (table : list (string * list string)) (cols : list string) :
  (∀ e, e ∈ table → no_match cols e.2) →
  rename_map table (norm_to_actual cols) = ∅.
Proof.
  intros H. apply map_eq. intros c. rewrite lookup_empty.
  destruct (rename_map table (norm_to_actual cols) !! c) as [canon|] eqn:E; [|done].
  apply rename_map_Some_inv in E as (aliases & Hin & Hfa).
  specialize (H _ Hin). apply first_alias_no_match in H. simpl in H. congruence.
Qed.

Lemma rename_map_one_binding (cols : list string) (c1 c2 canon : string) :
  rename_map CANON_MAP (norm_to_actual cols) !! c1 = Some canon →
  rename_map CANON_MAP (norm_to_actual cols) !! c2 = Some canon →
  c1 = c2.
Proof.
  intros (al1 & Hin1 & Hfa1)%rename_map_Some_inv (al2 & Hin2 & Hfa2)%rename_map_Some_inv.
  assert ((canon, al1) = (canon, al2)) as E.
  { eapply (apart _ CANON_MAP_keys_apart); [done..| | |done].
    - apply (self_alias_elem _ CANON_MAP_self_first _ Hin1).
    - apply (self_alias_elem _ CANON_MAP_self_first _ Hin2). }
  congruence.
Qed.

(** ** Reading a column of a frame with distinct labels *)

Lemma positions_from_absent (i : nat) (c : string) (cols : list string) :
  c ∉ cols → positions_from i c cols = [].
Proof.
  revert i. induction cols as [|c' cols IH]; intros i Hc; simpl; [done|].
  apply not_elem_of_cons in Hc as [Hne Hc]. case_decide; [congruence|by apply IH].
Qed.

Lemma positions_from_unique (i : nat) (c : string) (cols : list string) :
  NoDup cols → c ∈ cols → positions_from i c cols = [i + label_index c cols].
Proof.
  revert i. induction cols as [|c' cols IH]; intros i Hnd Hc; simpl; [inversion Hc|].
  apply NoDup_cons in Hnd as [Hnotin Hnd]. case_decide as E.
  - subst c'. rewrite positions_from_absent by done. f_equal. lia.
  - apply elem_of_cons in Hc as [->|Hc]; [done|].
    rewrite IH by done. f_equal. lia.
Qed.

Lemma position_unique (df : DataFrame) (c : string) :
  NoDup (columns df) → c ∈ columns df →
  position df c = Ok (label_index c (columns df)).
Proof. intros Hnd Hc. unfold position. by rewrite positions_from_unique. Qed.

Lemma getitem_unique (df : DataFrame) (c : string) :
  NoDup (columns df) → c ∈ columns df →
  getitem df c = Ok (map (field (columns df) c) (rows df)).
Proof. intros Hnd Hc. unfold getitem. by rewrite position_unique. Qed.

(** ** Masks as row predicates *)

Lemma mask_and_map {A : Type} (f g : A → bool) (l : list A) :
  mask_and (map f l) (map g l) = map (λ x, f x && g x) l.
Proof. unfold mask_and. induction l as [|x l IH]; simpl; [done|by rewrite IH]. Qed.

Lemma mask_not_map {A : Type} (f : A → bool) (l : list A) :
  mask_not (map f l) = map (λ x, negb (f x)) l.
Proof. unfold mask_not. by rewrite map_map. Qed.

Lemma select_rows_map (b : list value → bool) (P : list value → Prop)
    `{!∀ r, Decision (P r)} (rs : list (list value)) :
  (∀ r, b r = true ↔ P r) →
  select_rows rs (map b rs) = filter P rs.
Proof.
  intros Hb. induction rs as [|r rs IH]; [done|]. simpl.
  destruct (b r) eqn:E.
  - rewrite filter_cons_True by (by apply Hb). by rewrite IH.
  - rewrite filter_cons_False; [done|]. rewrite <- Hb. congruence.
Qed.

Lemma filter_all {A : Type} (P : A → Prop) `{!∀ x, Decision (P x)} (l : list A) :
  (∀ x, P x) → filter P l = l.
Proof.
  intros HP. induction l as [|x l IH]; [done|].
  rewrite filter_cons_True by done. by rewrite IH.
Qed.

(** ** Cell predicates *)

Lemma eq_str_spec (s : string) (v : value) : eq_str s v = true ↔ v = Str s.
Proof.
  destruct v as [s'| |]; simpl; [|done..].
  rewrite bool_decide_eq_true. split; congruence.
Qed.

Lemma notna_spec (v : value) : notna v = true ↔ non_null v.
Proof. unfold non_null. destruct v; simpl; split; try done; intros []; done. Qed.

Lemma isin_spec (set : list string) (v : value) :
  isin set v = true ↔ state_in set v.
Proof. destruct v; simpl; [apply bool_decide_eq_true|done..]. Qed.

(** ** The domestic filter *)

Lemma has_column_true (df : DataFrame) (c : string) :
  has_column df c = true ↔ c ∈ columns df.
Proof. unfold has_column. apply bool_decide_eq_true. Qed.

Lemma has_column_pair (df : DataFrame) (c1 c2 : string) :
  has_column df c1 && has_column df c2
  = bool_decide (c1 ∈ columns df ∧ c2 ∈ columns df).
Proof.
  unfold has_column.
  destruct (bool_decide_reflect (c1 ∈ columns df)),
           (bool_decide_reflect (c2 ∈ columns df)); simpl;
    symmetry; first [by apply bool_decide_eq_true|apply bool_decide_eq_false; tauto].
Qed.

(** The renaming pass looks at the labels only. *)
Lemma standardize_columns_labels (df : DataFrame) (rs : list (list value)) :
  columns (standardize_columns (mkDF (columns df) rs))
  = columns (standardize_columns df).
Proof.
  unfold standardize_columns. by rewrite !standardize_columns_with_rename.
Qed.

Lemma standardize_columns_rows (df : DataFrame) :
  rows (standardize_columns df) = rows df.
Proof.
  unfold standardize_columns. by rewrite standardize_columns_with_rename.
Qed.

Lemma filter_domestic_filter (df : DataFrame) (include_territories : bool) :
  let d := standardize_columns df in
  NoDup (columns d) →
  filter_domestic df include_territories
  = Ok (mkDF (columns d)
          (filter (domestic_row (columns d) include_territories
                     (domestic_signal (columns d))) (rows d))).
Proof.
  unfold filter_domestic, domestic_signal. cbv zeta.
  generalize (standardize_columns df). intros d Hnd.
  rewrite !has_column_pair.
  destruct (bool_decide_reflect
              ("ORIGIN_COUNTRY_NAME" ∈ columns d ∧ "DEST_COUNTRY_NAME" ∈ columns d))
    as [[Ho Hd]|_].
  { rewrite !getitem_unique by done. simpl. unfold loc. do 2 f_equal.
    rewrite !map_map, mask_and_map. apply select_rows_map.
    intros r. simpl. by rewrite andb_true_iff, !eq_str_spec. }
  destruct (bool_decide_reflect
              ("ORIGIN_STATE_ABR" ∈ columns d ∧ "DEST_STATE_ABR" ∈ columns d))
    as [[Ho Hd]|_].
  { rewrite !getitem_unique by done. simpl.
    destruct include_territories; unfold loc; do 2 f_equal.
    - rewrite !map_map, mask_and_map. apply select_rows_map.
      intros r. simpl. rewrite andb_true_iff, !notna_spec. intuition congruence.
    - rewrite !map_map, !mask_not_map, !mask_and_map. apply select_rows_map.
      intros r. simpl.
      rewrite !andb_true_iff, !negb_true_iff, !notna_spec.
      rewrite <- !not_true_iff_false, !isin_spec. intuition congruence. }
  simpl. rewrite filter_all by done. by destruct d.
Qed.

#[global] Arguments standardize_columns : simpl never.
#[global] Arguments _norm : simpl never.
#[global] Arguments rename_map : simpl never.
#[global] Arguments norm_to_actual : simpl never.
#[global] Arguments filter_domestic : simpl never.
#[global] Arguments keep_aa : simpl never.
#[global] Arguments select_output_cols : simpl never.
#[global] Arguments process_chunk : simpl never.

Lemma select_rows_sublist (rs : list (list value)) (mask : list bool) :
  select_rows rs mask `sublist_of` rs.
Proof.
  revert mask. induction rs as [|r rs IH]; intros [|b mask]; simpl;
    try apply sublist_nil_l.
  destruct b; [by apply sublist_skip|by apply sublist_cons].
Qed.

(** Whatever the branch, the result carries the labels of the renamed frame
    and a selection of its rows. *)
Lemma filter_domestic_Ok (df out : DataFrame) (include_territories : bool) :
  filter_domestic df include_territories = Ok out →
  columns out = columns (standardize_columns df)
  ∧ rows out `sublist_of` rows df.
Proof.
  rewrite <- (standardize_columns_rows df).
  unfold filter_domestic. cbv zeta. generalize (standardize_columns df). intros d.
  destruct (has_column d "ORIGIN_COUNTRY_NAME" && has_column d "DEST_COUNTRY_NAME").
  { destruct (getitem d "ORIGIN_COUNTRY_NAME") as [o|]; [|done].
    destruct (getitem d "DEST_COUNTRY_NAME") as [d'|]; [|done].
    intros [= <-]. split; [done|apply select_rows_sublist]. }
  destruct (has_column d "ORIGIN_STATE_ABR" && has_column d "DEST_STATE_ABR").
  { destruct (getitem d "ORIGIN_STATE_ABR") as [o|]; [|done].
    destruct (getitem d "DEST_STATE_ABR") as [d'|]; [|done].
    destruct include_territories; intros [= <-];
      (split; [done|apply select_rows_sublist]). }
  by intros [= <-].
Qed.

Lemma filter_domestic_no_signal (df : DataFrame) (include_territories : bool) :
  domestic_signal (columns (standardize_columns df)) = NoSignal →
  filter_domestic df include_territories = Ok (standardize_columns df).
Proof.
  unfold filter_domestic, domestic_signal. cbv zeta.
  generalize (standardize_columns df). intros d. rewrite !has_column_pair.
  by repeat case_bool_decide.
Qed.

(** A canonical label of the frame is still a label after the renaming pass. *)
Lemma canonical_label_stays (df : DataFrame) (c : string) :
  c ∈ CANON_MAP.*1 → c ∈ columns df → c ∈ columns (standardize_columns df).
Proof.
  intros (e & -> & He)%list_elem_of_fmap Hc.
  unfold standardize_columns. rewrite standardize_columns_with_rename.
  unfold rename. cbn [columns]. apply list_elem_of_fmap. exists e.1. split; [|done].
  destruct (rename_map CANON_MAP (norm_to_actual (columns df)) !! e.1)
    as [canon|] eqn:E; [|done]. cbn [default from_option].
  apply rename_map_Some_inv in E as (aliases & Hin & Hfa).
  apply first_alias_elem in Hfa as (a & Ha & [_ Hn]%norm_to_actual_elem).
  assert (e = (canon, aliases)) as ->; [|done].
  eapply (apart _ CANON_MAP_keys_apart);
    [done..|by apply (self_alias_elem _ CANON_MAP_self_first)|exact Ha|done].
Qed.

(** ** The carrier filter *)

Lemma carrier_column_marketing (cols : list string) :
  carrier_column cols true
  = if bool_decide (MKT ∈ cols) then Some MKT
    else if bool_decide (OP ∈ cols) then Some OP else None.
Proof.
  unfold carrier_column, MKT, OP.
  destruct (bool_decide ("MKT_UNIQUE_CARRIER" ∈ cols)); [done|].
  rewrite (bool_decide_eq_false_2 ("MKT_UNIQUE_CARRIER" ≠ "MKT_UNIQUE_CARRIER")) by tauto.
  rewrite (bool_decide_eq_true_2 ("MKT_UNIQUE_CARRIER" ≠ "OP_UNIQUE_CARRIER")) by done.
  simpl. by destruct (bool_decide ("OP_UNIQUE_CARRIER" ∈ cols)).
Qed.

Lemma carrier_column_operating (cols : list string) :
  carrier_column cols false
  = if bool_decide (OP ∈ cols) then Some OP
    else if bool_decide (MKT ∈ cols) then Some MKT else None.
Proof.
  unfold carrier_column, MKT, OP.
  destruct (bool_decide ("OP_UNIQUE_CARRIER" ∈ cols)); [done|].
  rewrite (bool_decide_eq_true_2 ("OP_UNIQUE_CARRIER" ≠ "MKT_UNIQUE_CARRIER")) by done.
  rewrite (bool_decide_eq_false_2 ("OP_UNIQUE_CARRIER" ≠ "OP_UNIQUE_CARRIER")) by tauto.
  simpl. by destruct (bool_decide ("MKT_UNIQUE_CARRIER" ∈ cols)).
Qed.

Lemma carrier_column_elem (cols : list string) (use_marketing : bool) (col : string) :
  carrier_column cols use_marketing = Some col →
  col ∈ cols ∧ (col = MKT ∨ col = OP).
Proof.
  destruct use_marketing;
    rewrite ?carrier_column_marketing, ?carrier_column_operating;
    repeat case_bool_decide; intros [= <-]; auto.
Qed.

Lemma keep_aa_column (df : DataFrame) (use_marketing : bool) (col : string) :
  let d := standardize_columns df in
  NoDup (columns d) →
  carrier_column (columns d) use_marketing = Some col →
  keep_aa df use_marketing
  = Ok (mkDF (columns d) (filter (λ r, field (columns d) col r = Str target_code) (rows d))).
Proof.
  unfold keep_aa. cbv zeta. generalize (standardize_columns df). intros d Hnd Hcol.
  rewrite Hcol. destruct (carrier_column_elem _ _ _ Hcol) as [Hin Hname].
  case_decide as Hempty.
  { exfalso. destruct Hname as [E|E]; rewrite E in Hempty; discriminate. }
  rewrite getitem_unique by done. simpl. unfold loc. do 2 f_equal.
  rewrite map_map. apply select_rows_map. intros r. apply eq_str_spec.
Qed.

Lemma keep_aa_missing (df : DataFrame) (use_marketing : bool) :
  let d := standardize_columns df in
  MKT ∉ columns d → OP ∉ columns d →
  keep_aa df use_marketing = Raise (KeyError missing_carrier (columns d)).
Proof.
  unfold keep_aa. cbv zeta. generalize (standardize_columns df). intros d Hm Ho.
  assert (carrier_column (columns d) use_marketing = None) as ->; [|done].
  destruct use_marketing;
    rewrite ?carrier_column_marketing, ?carrier_column_operating;
    by rewrite !bool_decide_eq_false_2.
Qed.

(** ** Projection *)

Lemma astype_string_idemp (v : value) :
  astype_string (astype_string v) = astype_string v.
Proof. by destruct v. Qed.

Lemma apply_casts_astype (cs : list string) (c' : string) (v : value) :
  apply_casts cs c' (astype_string v) = astype_string v.
Proof.
  induction cs as [|c cs IH]; simpl; [done|].
  case_decide; by rewrite ?astype_string_idemp, IH.
Qed.

Lemma apply_casts_elem (cs : list string) (c' : string) (v : value) :
  apply_casts cs c' v = if bool_decide (c' ∈ cs) then astype_string v else v.
Proof.
  revert v. induction cs as [|c cs IH]; intros v; simpl.
  - done.
  - destruct (decide (c' = c)) as [->|E].
    + rewrite apply_casts_astype, bool_decide_eq_true_2; [done|by left].
    + rewrite IH. apply (f_equal (λ b : bool, if b then _ else _)).
      apply bool_decide_ext. rewrite elem_of_cons. tauto.
Qed.

Lemma apply_casts_app (cs1 cs2 : list string) (c' : string) (v : value) :
  apply_casts (cs1 ++ cs2) c' v = apply_casts cs2 c' (apply_casts cs1 c' v).
Proof. revert v. induction cs1 as [|c cs1 IH]; intros v; simpl; [done|apply IH]. Qed.

Lemma list_filter_Prop {A : Type} (b : A → bool) (P : A → Prop)
    `{!∀ x, Decision (P x)} (l : list A) :
  (∀ x, b x = true ↔ P x) → List.filter b l = filter P l.
Proof.
  intros Hb. induction l as [|x l IH]; [done|]. simpl. destruct (b x) eqn:E.
  - rewrite filter_cons_True by (by apply Hb). by rewrite IH.
  - rewrite filter_cons_False; [done|]. rewrite <- Hb. congruence.
Qed.

Lemma OUTPUT_COLS_NoDup : NoDup OUTPUT_COLS.
Proof. apply (bool_decide_unpack _). vm_compute. exact I. Qed.

(** *** Selecting columns by label *)

Lemma labelled_unique (cols : list string) (c : string) :
  NoDup cols → c ∈ cols → labelled cols c = [(c, label_index c cols)].
Proof. intros Hnd Hc. unfold labelled. by rewrite positions_from_unique. Qed.

Lemma positions_from_elem (i : nat) (c : string) (cols : list string) :
  c ∈ cols → positions_from i c cols ≠ [].
Proof.
  revert i. induction cols as [|c' cols IH]; intros i Hc; [inversion Hc|].
  cbn [positions_from]. case_decide as E; [done|].
  apply elem_of_cons in Hc as [->|Hc]; [done|by apply IH].
Qed.

Lemma labelled_elem (cols : list string) (c : string) :
  c ∈ cols → labelled cols c ≠ [].
Proof.
  intros Hc%(positions_from_elem 0). unfold labelled.
  by destruct (positions_from 0 c cols).
Qed.

Lemma labelled_label (cols : list string) (c : string) (p : string * nat) :
  p ∈ labelled cols c → p.1 = c.
Proof. unfold labelled. by intros (i & -> & _)%list_elem_of_fmap. Qed.

Lemma mapM_labelled (cols cs : list string) :
  (∀ c, c ∈ cs → c ∈ cols) →
  mapM (λ c, match labelled cols c with
             | [] => Raise (LabelError c)
             | ps => Ok ps
             end) cs
  = Ok (map (labelled cols) cs).
Proof.
  induction cs as [|c cs IH]; intros Hin; [done|]. cbn [mapM map].
  rewrite IH by (intros; apply Hin; by right).
  assert (labelled cols c ≠ []) as Hne by (apply labelled_elem, Hin; by left).
  by destruct (labelled cols c).
Qed.

(** With every listed label present, [df.loc[:, cols]] does not raise. *)
Lemma loc_columns_present (df : DataFrame) (cs : list string) :
  (∀ c, c ∈ cs → c ∈ columns df) →
  loc_columns df cs
  = Ok (mkDF (flat_map (labelled (columns df)) cs).*1
             (map (λ r, map (λ p, cell p.2 r) (flat_map (labelled (columns df)) cs))
                  (rows df))).
Proof.
  intros Hin. unfold loc_columns. rewrite mapM_labelled by done.
  rewrite bind_Ok. cbv zeta. by rewrite <- flat_map_concat_map.
Qed.

(** *** Casting columns *)

Lemma cast_cells_cons (i : nat) (ps : list nat) (r : list value) :
  cast_cells (i :: ps) r = cast_cells ps (<[i := astype_string (cell i r)]> r).
Proof. reflexivity. Qed.

(** Casting the cells under the label [c] of a row laid out along [L]. *)
Lemma cast_cells_layout (c : string) (h : string * nat → value)
    (L : list (string * nat)) (pre : list value) :
  cast_cells (positions_from (length pre) c L.*1) (pre ++ map h L)
  = pre ++ map (λ p, if decide (p.1 = c) then astype_string (h p) else h p) L.
Proof.
  revert pre. induction L as [|p L IH]; intros pre; [done|].
  rewrite fmap_cons. cbn [positions_from map]. case_decide as E.
  - rewrite cast_cells_cons.
    assert (cell (length pre) (pre ++ h p :: map h L) = h p) as ->
      by (unfold cell; by rewrite list_lookup_middle).
    rewrite insert_app_r_alt by done. rewrite Nat.sub_diag. cbn [insert list_insert].

    specialize (IH (pre ++ [astype_string (h p)])).
    rewrite length_app, Nat.add_1_r, <- !app_assoc in IH. exact IH.
  - specialize (IH (pre ++ [h p])).
    rewrite length_app, Nat.add_1_r, <- !app_assoc in IH. exact IH.
Qed.

Lemma cast_column_layout (L : list (string * nat)) (c : string)
    (g : list value → string * nat → value) (rs : list (list value)) :
  cast_column (mkDF L.*1 (map (λ r, map (g r) L) rs)) c
  = mkDF L.*1 (map (λ r, map (λ p, apply_casts [c] p.1 (g r p)) L) rs).
Proof.
  unfold cast_column, has_column. cbn [columns rows apply_casts].
  case_bool_decide as Hc.
  - f_equal. rewrite map_map. apply map_ext. intros r.
    apply (cast_cells_layout c (g r) L []).
  - f_equal. apply map_ext. intros r. apply map_ext_in. intros p Hp%list_elem_of_In.
    case_decide as E; [|done]. exfalso. apply Hc. rewrite <- E.
    apply list_elem_of_fmap. by exists p.
Qed.

Lemma cast_columns_layout (L : list (string * nat)) (casts : list string)
    (g : list value → string * nat → value) (rs : list (list value)) :
  cast_columns (mkDF L.*1 (map (λ r, map (g r) L) rs)) casts
  = mkDF L.*1 (map (λ r, map (λ p, apply_casts casts p.1 (g r p)) L) rs).
Proof.
  unfold cast_columns. revert g. induction casts as [|c casts IH]; intros g; [done|].
  cbn [foldl]. rewrite cast_column_layout.
  by rewrite (IH (λ r p, apply_casts [c] p.1 (g r p))).
Qed.

(** *** The projection *)

Lemma elem_of_kept_labels (cols : list string) (c : string) :
  c ∈ kept_labels cols ↔ c ∈ OUTPUT_COLS ∧ c ∈ cols.
Proof.
  unfold kept_labels. rewrite list_elem_of_In, filter_In, <- list_elem_of_In.
  by rewrite bool_decide_eq_true.
Qed.

(** What [select_output_cols] returns, for every frame: the kept columns of
    the renamed frame, their cells cast where the source casts them.  It
    never raises. *)
Lemma select_output_cols_form (df : DataFrame) :
  let d := standardize_columns df in
  select_output_cols df
  = Ok (match kept_labels (columns d) with
        | [] => empty_frame
        | _ => mkDF (kept_columns (columns d)).*1 (map (project (columns d)) (rows d))
        end).
Proof.
  unfold select_output_cols, project, kept_columns, has_column. cbv zeta.
  generalize (standardize_columns df). intros d.
  fold (kept_labels (columns d)).
  pose proof (λ c, proj1 (elem_of_kept_labels (columns d) c)) as Hin. revert Hin.
  generalize (kept_labels (columns d)). intros kept Hin.
  destruct kept as [|c0 kept]; [done|].
  rewrite loc_columns_present, bind_Ok by (intros c Hc; by apply Hin). cbv zeta.
  generalize (flat_map (labelled (columns d)) (c0 :: kept)). intros L.
  rewrite (cast_columns_layout L TIME_COLS (λ r p, cell p.2 r)).
  rewrite (cast_column_layout L "OP_CARRIER_FL_NUM"
             (λ r p, apply_casts TIME_COLS p.1 (cell p.2 r))).
  by do 2 f_equal.
Qed.


Lemma flat_map_singletons {A B : Type} (f : A → list B) (g : A → B) (l : list A) :
  (∀ a, a ∈ l → f a = [g a]) → flat_map f l = map g l.
Proof.
  induction l as [|a l IH]; intros H; [done|]. cbn [flat_map map].
  rewrite (H a) by (by left). rewrite IH by (intros; apply H; by right). done.
Qed.

(** With distinct labels every kept label names one column. *)
Lemma kept_columns_unique (cols : list string) :
  NoDup cols →
  kept_columns cols = map (λ c, (c, label_index c cols)) (kept_labels cols).
Proof.
  intros Hnd. unfold kept_columns. apply flat_map_singletons.
  intros c [_ Hc]%elem_of_kept_labels. by apply labelled_unique.

Qed.

Lemma select_output_cols_layout (df : DataFrame) :
  let d := standardize_columns df in
  let kept := filter (λ c, c ∈ columns d) OUTPUT_COLS in
  NoDup (columns d) →
  select_output_cols df
  = Ok (if decide (kept = []) then empty_frame
        else mkDF kept (map (λ r, map (projected_cell (columns d) r) kept) (rows d))).
Proof.
  cbv zeta. rewrite select_output_cols_form. cbv zeta. unfold project.
  generalize (standardize_columns df). intros d Hnd.
  rewrite kept_columns_unique by done. unfold kept_labels.
  rewrite (list_filter_Prop (λ c, bool_decide (c ∈ columns d)) (λ c, c ∈ columns d))
    by (intros; apply bool_decide_eq_true).
  generalize (filter (λ c, c ∈ columns d) OUTPUT_COLS). intros kept.
  case_decide as E; [by rewrite E|]. destruct kept as [|c0 kept]; [done|].
  f_equal. f_equal.
  - rewrite <- list_fmap_compose. apply list_fmap_id.
  - apply map_ext. intros r. rewrite map_map. apply map_ext. intros c.
    cbn [fst snd]. unfold projected_cell. apply apply_casts_elem.
Qed.

(** ** The appending writer *)

Lemma foldl_main_step_skipped (st : list line * bool) (months : list (outcome DataFrame)) :
  Forall skipped months → foldl main_step st months = st.
Proof.
  revert st. induction months as [|m months IH]; intros st Hs; [done|].
  apply Forall_cons in Hs as [Hm Hs]. simpl. rewrite <- (IH st Hs) at 2. f_equal.
  destruct m as [dfm|e]; [|done]. simpl in *. unfold append_write. rewrite Hm.
  by destruct st.
Qed.

Lemma foldl_main_step_written (out : list line) (months : list (outcome DataFrame)) :
  foldl main_step (out, true) months = (out ++ data_lines months, true).
Proof.
  revert out. induction months as [|m months IH]; intros out; simpl.
  - by rewrite app_nil_r.
  - destruct m as [dfm|e]; simpl; [|apply IH].
    unfold append_write. simpl. destruct (empty dfm); [apply IH|].
    unfold to_csv. simpl. by rewrite IH, <- app_assoc.
Qed.

Lemma data_lines_no_header (months : list (outcome DataFrame)) :
  Forall (λ l, is_header l = false) (data_lines months).
Proof.
  unfold data_lines. apply Forall_flat_map, Forall_forall. intros [dfm|e] _; [|done].
  destruct (empty dfm); [done|]. by apply Forall_fmap, Forall_true.
Qed.

(** ** The chunk loop *)

Lemma held_rows_app (p1 p2 : list DataFrame) :
  held_rows (p1 ++ p2) = (held_rows p1 + held_rows p2)%nat.
Proof. apply sum_list_with_app. Qed.

Lemma chunk_loop_cons (c : DataFrame) (reader : list DataFrame) (um it : bool)
    (parts : list DataFrame) :
  chunk_loop (c :: reader) um it parts
  = process_chunk c um it ≫= λ chunk',
      chunk_loop reader um it (if empty chunk' then parts else parts ++ [chunk']).
Proof. reflexivity. Qed.

Lemma mapM_cons {A B : Type} (f : A → outcome B) (a : A) (l : list A) :
  mapM f (a :: l) = f a ≫= λ b, mapM f l ≫= λ bs, Ok (b :: bs).
Proof. reflexivity. Qed.

Lemma chunk_loop_Ok (reader : list DataFrame) (um it : bool) (parts parts' : list DataFrame) :
  chunk_loop reader um it parts = Ok parts' ↔
  ∃ results, mapM (λ c, process_chunk c um it) reader = Ok results
    ∧ parts' = parts ++ List.filter nonempty results.
Proof.
  revert parts. induction reader as [|c reader IH]; intros parts.
  - split.
    + intros [= <-]. exists []. by rewrite app_nil_r.
    + intros (results & [= <-] & ->). by rewrite app_nil_r.
  - rewrite chunk_loop_cons, mapM_cons.
    destruct (process_chunk c um it) as [r|e].
    + rewrite !bind_Ok, IH. split.
      * intros (results & Hres & ->). exists (r :: results). rewrite Hres.
        split; [reflexivity|]. cbn [List.filter]. unfold nonempty at 2.
        destruct (empty r); cbn; [done|by rewrite <- app_assoc].
      * intros (results & Hres & ->).
        destruct (mapM _ reader) as [results'|]; [|done].
        rewrite bind_Ok in Hres. injection Hres as <-.
        exists results'. split; [done|]. cbn [List.filter]. unfold nonempty at 1.
        destruct (empty r); cbn; [done|by rewrite <- app_assoc].
    + split; [done|]. by intros (results & ? & _).
Qed.

Lemma chunk_loop_replicate (c r : DataFrame) (um it : bool) (n : nat)
    (parts : list DataFrame) :
  process_chunk c um it = Ok r → empty r = false →
  chunk_loop (replicate n c) um it parts = Ok (parts ++ replicate n r).
Proof.
  intros Hc Hr. revert parts. induction n as [|n IH]; intros parts.
  - cbn. by rewrite app_nil_r.
  - cbn [replicate]. rewrite chunk_loop_cons, Hc, bind_Ok, Hr, IH.
    by rewrite <- app_assoc.
Qed.

Lemma held_rows_replicate (r : DataFrame) (n : nat) :
  held_rows (replicate n r) = (n * length (rows r))%nat.
Proof.
  unfold held_rows. induction n as [|n IH]; simpl; [done|]. by rewrite IH.
Qed.

Lemma largest_chunk_replicate (c : DataFrame) (n : nat) :
  (largest_chunk (replicate n c) ≤ length (rows c))%nat.
Proof.
  unfold largest_chunk. induction n as [|n IH]; simpl; lia.
Qed.

Lemma process_one_row_chunk : process_chunk one_row_chunk false true = Ok one_row_chunk.
Proof. vm_compute. reflexivity. Qed.

(** ** No stage adds rows *)

Lemma keep_aa_Ok (df out : DataFrame) (use_marketing : bool) :
  keep_aa df use_marketing = Ok out →
  columns out = columns (standardize_columns df) ∧ rows out `sublist_of` rows df.
Proof.
  rewrite <- (standardize_columns_rows df).
  unfold keep_aa. cbv zeta. generalize (standardize_columns df). intros d.
  destruct (carrier_column (columns d) use_marketing) as [col|]; [|done].
  case_decide; [done|].
  destruct (getitem d col) as [s|]; [|done].
  intros [= <-]. split; [done|apply select_rows_sublist].
Qed.

Lemma select_output_cols_Ok (df out : DataFrame) :
  select_output_cols df = Ok out → (length (rows out) ≤ length (rows df))%nat.
Proof.
  rewrite <- (standardize_columns_rows df), select_output_cols_form. cbv zeta.
  generalize (standardize_columns df). intros d.
  destruct (kept_labels (columns d)); intros [= <-]; cbn [rows empty_frame length]; [lia|].
  by rewrite length_map.

Qed.

Lemma process_chunk_rows (chunk out : DataFrame) (um it : bool) :
  process_chunk chunk um it = Ok out →
  (length (rows out) ≤ length (rows chunk))%nat.
Proof.
  unfold process_chunk. cbv zeta.
  destruct (filter_domestic _ it) as [d1|] eqn:E1; [|done]. rewrite bind_Ok.
  destruct (keep_aa d1 um) as [d2|] eqn:E2; [|done]. rewrite bind_Ok.
  intros H3%select_output_cols_Ok.
  apply filter_domestic_Ok in E1 as [_ H1%sublist_length].
  apply keep_aa_Ok in E2 as [_ H2%sublist_length].
  rewrite standardize_columns_rows in H1. lia.
Qed.

Lemma mapM_process_rows (reader results : list DataFrame) (um it : bool) :
  mapM (λ c, process_chunk c um it) reader = Ok results →
  (held_rows (List.filter nonempty results) ≤ rows_read reader)%nat.
Proof.
  revert results. induction reader as [|c reader IH]; intros results.
  - by intros [= <-].
  - rewrite mapM_cons. destruct (process_chunk c um it) as [r|] eqn:Er; [|done].
    rewrite bind_Ok. destruct (mapM _ reader) as [rs|]; [|done].
    rewrite bind_Ok. intros [= <-]. specialize (IH rs eq_refl).
    apply process_chunk_rows in Er. cbn [List.filter].
    unfold rows_read, held_rows in *. destruct (nonempty r); cbn; lia.
Qed.

(** ** The scenarios of the specification *)

(** Scenario A: aliases are renamed, the operating carrier is used, and only
    the canonical output columns that exist are kept. *)
Example process_scenario_A :
  columns (standardize_columns scenario_A)
  = ["FL_DATE"; "OP_UNIQUE_CARRIER"; "ORIGIN"; "DEST";
     "ORIGIN_COUNTRY_NAME"; "DEST_COUNTRY_NAME"]
  ∧ process_chunk scenario_A false true
    = Ok (mkDF ["FL_DATE"; "OP_UNIQUE_CARRIER"; "ORIGIN"; "DEST"]
               [ [Str "2023-01-01"; Str "AA"; Str "DFW"; Str "LGA"] ]).
Proof. split; vm_compute; reflexivity. Qed.

(** Scenario D: a territory endpoint is dropped only when territories are
    excluded. *)
Example filter_scenario_D :
  filter_domestic scenario_D false = Ok (mkDF ["ORIGIN_STATE_ABR"; "DEST_STATE_ABR"] [])
  ∧ filter_domestic scenario_D true
    = Ok (mkDF ["ORIGIN_STATE_ABR"; "DEST_STATE_ABR"] [ [Str "PR"; Str "NY"] ]).
Proof. split; vm_compute; reflexivity. Qed.

(** * The claims *)

(** C1 (amended).  For a batch whose labels are distinct after the renaming
    pass of the domestic filter, the branch of the filter is a function of
    those labels (the pass is the identity on a batch that is already
    reconciled) and of nothing else; the rows of the batch play no part in
    the choice.  Exactly the rows described by the chosen branch are kept:
    both country names equal to "UNITED STATES" when both country columns
    are present; otherwise, when both state columns are present, both state
    cells non-null and, if territories are excluded, neither of them in PR,
    VI, GU, AS, MP; otherwise every row. *)
Theorem filter_domestic_branch (df : DataFrame) (include_territories : bool) :
  let d := standardize_columns df in
  NoDup (columns d) →
  filter_domestic df include_territories
  = Ok (mkDF (columns d)
          (filter (domestic_row (columns d) include_territories
                     (domestic_signal (columns d))) (rows d)))
  ∧ ∀ rs, domestic_signal (columns (standardize_columns (mkDF (columns df) rs)))
          = domestic_signal (columns d).
Proof.
  intros d Hnd. split; [by apply filter_domestic_filter|].
  intros rs. by rewrite standardize_columns_labels.
Qed.

Lemma filter_domestic_branch_witness :
  filter_domestic scenario_D_mixed false
  = Ok (mkDF ["ORIGIN_STATE_ABR"; "DEST_STATE_ABR"] [ [Str "TX"; Str "NY"] ])
  ∧ filter_domestic scenario_D_mixed true
  = Ok (mkDF ["ORIGIN_STATE_ABR"; "DEST_STATE_ABR"]
             [ [Str "PR"; Str "NY"]; [Str "TX"; Str "NY"] ]).
Proof.
  assert (NoDup (columns (standardize_columns scenario_D_mixed))) as Hnd.
  { apply (bool_decide_unpack _). vm_compute. exact I. }
  split.
  - destruct (filter_domestic_branch scenario_D_mixed false Hnd) as [-> _].
    vm_compute. reflexivity.
  - destruct (filter_domestic_branch scenario_D_mixed true Hnd) as [-> _].
    vm_compute. reflexivity.
Defined.

(** C1, as stated for every batch, fails on a batch with distinct labels
    and both country columns in which the renaming pass gives a second
    column the label of the origin country: every row has "UNITED STATES"
    in all its cells, and yet the filter raises and keeps no row. *)
Lemma filter_domestic_repeated_country_label :
  NoDup (columns repeated_country_batch)
  ∧ "ORIGIN_COUNTRY_NAME" ∈ columns repeated_country_batch
  ∧ "DEST_COUNTRY_NAME" ∈ columns repeated_country_batch
  ∧ columns (standardize_columns repeated_country_batch)
    = ["ORIGIN_COUNTRY_NAME"; "ORIGIN_COUNTRY_NAME"; "DEST_COUNTRY_NAME"]
  ∧ filter_domestic repeated_country_batch true = Raise (LabelError "ORIGIN_COUNTRY_NAME")
  ∧ filter_domestic repeated_country_batch false = Raise (LabelError "ORIGIN_COUNTRY_NAME").
Proof.
  split_and!; [apply (bool_decide_unpack _); vm_compute; exact I..
              |vm_compute; reflexivity|vm_compute; reflexivity|vm_compute; reflexivity].
Qed.

(** C2 (amended).  When the batch, after the renaming pass of the carrier
    filter, has distinct labels and at least one of the two carrier columns,
    the filter succeeds on one of them: the preferred one (marketing when
    [use_marketing], operating otherwise) if it is present, in particular
    when both are, and the other one if the preferred one is absent.  It
    keeps exactly the rows whose cell in that column is the string "AA";
    the comparison is exact, so "aa" does not match. *)
Theorem keep_aa_selects (df : DataFrame) (use_marketing : bool) :
  let d := standardize_columns df in
  let preferred := if use_marketing then MKT else OP in
  let other := if use_marketing then OP else MKT in
  NoDup (columns d) →
  MKT ∈ columns d ∨ OP ∈ columns d →
  ∃ col,
    keep_aa df use_marketing
    = Ok (mkDF (columns d)
            (filter (λ r, field (columns d) col r = Str target_code) (rows d)))
    ∧ (MKT ∈ columns d → OP ∈ columns d → col = preferred)
    ∧ (preferred ∈ columns d → col = preferred)
    ∧ (preferred ∉ columns d → col = other)
    ∧ eq_str target_code (Str "aa") = false.
Proof.
  intros d preferred other Hnd Hsome.
  assert (carrier_column (columns d) use_marketing
          = Some (if bool_decide (preferred ∈ columns d) then preferred else other))
    as Hcol.
  { subst preferred other. destruct use_marketing;
      rewrite ?carrier_column_marketing, ?carrier_column_operating;
      repeat case_bool_decide; tauto. }
  eexists. split; [by apply keep_aa_column|].
  split_and!; [intros Hm Ho|intros Hp|intros Hp|done].
  - rewrite bool_decide_eq_true_2; [done|]. subst preferred. by destruct use_marketing.
  - by rewrite bool_decide_eq_true_2.
  - by rewrite bool_decide_eq_false_2.
Qed.

Lemma keep_aa_selects_witness :
  keep_aa reporting_batch false
  = Ok (mkDF ["MKT_UNIQUE_CARRIER"; "ORIGIN"] [ [Str "AA"; Str "DFW"] ]).
Proof.
  assert (NoDup (columns (standardize_columns reporting_batch))) as Hnd.
  { apply (bool_decide_unpack _). vm_compute. exact I. }
  assert (MKT ∈ columns (standardize_columns reporting_batch)
          ∨ OP ∈ columns (standardize_columns reporting_batch)) as Hsome.
  { left. apply (bool_decide_unpack _). vm_compute. exact I. }
  destruct (keep_aa_selects reporting_batch false Hnd Hsome)
    as (col & -> & _ & _ & Hother & _).
  rewrite Hother.
  - vm_compute. reflexivity.
  - apply (bool_decide_unpack _). vm_compute. exact I.
Defined.

(** C2, as stated for every batch with a carrier column, fails on a batch
    with distinct labels in which the renaming pass gives a second column
    the label of the operating carrier: whatever the flag, the filter
    raises instead of keeping the rows of carrier "AA". *)
Lemma keep_aa_repeated_carrier_label :
  NoDup (columns repeated_carrier_batch)
  ∧ OP ∈ columns repeated_carrier_batch
  ∧ columns (standardize_columns repeated_carrier_batch) = [OP; OP]
  ∧ keep_aa repeated_carrier_batch false = Raise (LabelError OP)
  ∧ keep_aa repeated_carrier_batch true = Raise (LabelError OP).
Proof.
  split_and!; [apply (bool_decide_unpack _); vm_compute; exact I..
              |vm_compute; reflexivity|vm_compute; reflexivity|vm_compute; reflexivity].
Qed.

(** C3. When neither carrier column is a label of the batch after the
    renaming pass, the carrier filter raises: the exception is a [KeyError]
    whose message says that the carrier column is missing and lists the
    labels of the renamed batch.  The rows play no part, and no frame is
    returned. *)
Theorem keep_aa_schema_error (df : DataFrame) (use_marketing : bool) :
  let d := standardize_columns df in
  MKT ∉ columns d → OP ∉ columns d →
  keep_aa df use_marketing = Raise (KeyError missing_carrier (columns d))
  ∧ (∀ rs, keep_aa (mkDF (columns df) rs) use_marketing
           = Raise (KeyError missing_carrier (columns d)))
  ∧ (∀ out, keep_aa df use_marketing ≠ Ok out)
  ∧ ∃ pre post, missing_carrier = (pre ++ "carrier" ++ post)%string.
Proof.
  intros d Hm Ho.
  assert (keep_aa df use_marketing = Raise (KeyError missing_carrier (columns d))) as E
    by by apply keep_aa_missing.
  split_and!; [done| |by rewrite E|by exists "Missing ", " column; have: "].
  intros rs. subst d. rewrite <- (standardize_columns_labels df rs).
  apply keep_aa_missing; by rewrite standardize_columns_labels.
Qed.

Lemma keep_aa_schema_error_witness :
  keep_aa no_carrier_batch true
  = Raise (KeyError "Missing carrier column; have: " ["FL_DATE"; "ORIGIN"; "Tail_Number"]).
Proof.
  refine (proj1 (keep_aa_schema_error no_carrier_batch true _ _));
    apply (bool_decide_unpack _); vm_compute; exact I.
Defined.

(** C4. Renaming twice is renaming once, for every batch; a batch whose
    labels are all canonical names is left as it is; and every alias list
    of the table contains its canonical name. *)
Theorem standardize_columns_idempotent (df : DataFrame) :
  standardize_columns (standardize_columns df) = standardize_columns df
  ∧ ((∀ c, c ∈ columns df → c ∈ CANON_MAP.*1) → standardize_columns df = df)
  ∧ (∀ canon aliases, (canon, aliases) ∈ CANON_MAP → canon ∈ aliases).
Proof.
  split_and!.
  - apply standardize_with_idempotent;
      [apply CANON_MAP_self_first|apply CANON_MAP_keys_apart].
  - intros Hcanon. apply settled_fixed, canonical_settled;
      [apply CANON_MAP_self_first|apply CANON_MAP_keys_apart|done].
  - intros canon aliases Hin.
    apply (self_alias_elem _ CANON_MAP_self_first _ Hin).
Qed.

Lemma standardize_columns_idempotent_witness :
  standardize_columns canonical_batch = canonical_batch
  ∧ "FL_DATE" ∈ ["FL_DATE"; "FLIGHT_DATE"; "FLIGHTDATE"].
Proof.
  destruct (standardize_columns_idempotent canonical_batch) as (_ & Hfix & Hself).
  split.
  - apply Hfix. apply Forall_forall. apply (bool_decide_unpack _).
    vm_compute. exact I.
  - apply (Hself "FL_DATE"). apply (bool_decide_unpack _). vm_compute. exact I.
Defined.

(** C5 (amended).  The normaliser uppercases first and then deletes every
    character outside A-Z and 0-9; on names made of ASCII characters this is
    the same as deleting what is not an ASCII letter or digit and then
    uppercasing, but the capital of U+00DF is SS, which is kept.  For every
    column list and alias list the scan stops at the first alias whose key
    is the key of some column and binds that column (the last one, if
    several columns share the key), or binds nothing when no alias key is
    the key of a column; no canonical field is bound to two columns; and a
    batch none of whose columns matches any alias comes back unchanged. *)
Theorem norm_and_first_alias (cols aliases : list string) :
  (∀ s, ascii_only s → _norm s = norm_spec s)
  ∧ _norm (String (ascii_of_nat 223) "") = "SS"
  ∧ (∀ c, first_alias (norm_to_actual cols) aliases = Some c ↔ binds cols aliases c)
  ∧ (first_alias (norm_to_actual cols) aliases = None ↔ no_match cols aliases)
  ∧ (∀ c1 c2 canon,
       rename_map CANON_MAP (norm_to_actual cols) !! c1 = Some canon →
       rename_map CANON_MAP (norm_to_actual cols) !! c2 = Some canon → c1 = c2)
  ∧ (∀ rs, (∀ e, e ∈ CANON_MAP → no_match cols e.2) →
           standardize_columns (mkDF cols rs) = mkDF cols rs).
Proof.
  split_and!.
  - apply _norm_ascii.
  - vm_compute. reflexivity.
  - intros c. apply first_alias_binds.
  - apply first_alias_no_match.
  - apply rename_map_one_binding.
  - intros rs Hno. unfold standardize_columns, standardize_columns_with. cbn [columns].
    rewrite rename_map_no_match by done. by case_decide.
Qed.

Lemma norm_and_first_alias_witness :
  _norm "Flight_Date" = norm_spec "Flight_Date"
  ∧ standardize_columns (mkDF ["Tail_Number"] [ [Str "N123AA"] ])
    = mkDF ["Tail_Number"] [ [Str "N123AA"] ].
Proof.
  destruct (norm_and_first_alias ["Tail_Number"] []) as (Hascii & _ & _ & _ & _ & Hnone).
  split.
  - apply Hascii. apply (bool_decide_unpack _). vm_compute. exact I.
  - apply Hnone. intros e He a x Ha Hx.
    apply list_elem_of_singleton in Hx as ->.
    revert a Ha. apply Forall_forall. revert e He. apply Forall_forall.
    apply (bool_decide_unpack _). vm_compute. exact I.
Defined.

(** C5, as stated, fails on the name made of the one character U+00DF:
    the code yields SS, deleting before uppercasing yields the empty key. *)
Lemma norm_differs_from_strip_then_upper :
  _norm (String (ascii_of_nat 223) "") = "SS"
  ∧ norm_spec (String (ascii_of_nat 223) "") = ""
  ∧ _norm (String (ascii_of_nat 223) "") ≠ norm_spec (String (ascii_of_nat 223) "").
Proof. split_and!; [vm_compute; reflexivity..|vm_compute; discriminate]. Qed.

(** C6 (amended).  With distinct labels after the renaming pass of the
    projection, the projected frame has exactly the labels of [OUTPUT_COLS]
    that are labels of the renamed batch, in the order of [OUTPUT_COLS]; its
    rows are the rows of the batch, one for one and in the same order, cut
    down to those columns (the six time columns and the flight number cast
    to strings).  When no such label exists the result is the frame without
    columns and without rows. *)

Theorem select_output_cols_projects (df : DataFrame) :
  let d := standardize_columns df in
  let kept := filter (λ c, c ∈ columns d) OUTPUT_COLS in
  NoDup (columns d) →
  (kept = [] → select_output_cols df = Ok empty_frame)
  ∧ (kept ≠ [] →
     ∃ out, select_output_cols df = Ok out
       ∧ columns out = kept
       ∧ rows out = map (λ r, map (projected_cell (columns d) r) kept) (rows df)
       ∧ length (rows out) = length (rows df))
  ∧ columns empty_frame = [] ∧ rows empty_frame = [].
Proof.
  intros d kept Hnd.
  pose proof (select_output_cols_layout df Hnd) as H. cbv zeta in H.
  fold d in H. fold kept in H.
  split_and!; [| |done..].
  - intros E. rewrite H. by rewrite decide_True.
  - intros E. rewrite H, decide_False by done. eexists. split; [done|].
    cbn [columns rows]. subst d. rewrite standardize_columns_rows.
    split_and!; [done..|]. by rewrite length_map.
Qed.

Lemma select_output_cols_projects_witness :
  select_output_cols
    (mkDF ["Dest"; "Tail_Number"; "DepTime"; "FlightDate"]
          [ [Str "LGA"; Str "N1"; NaN; Str "2023-01-01"];
            [Str "ORD"; Str "N2"; Str "0915"; Str "2023-01-02"] ])
  = Ok (mkDF ["FL_DATE"; "DEST"; "DEP_TIME"]
             [ [Str "2023-01-01"; Str "LGA"; NA];
               [Str "2023-01-02"; Str "ORD"; Str "0915"] ])
  ∧ select_output_cols (mkDF ["Tail_Number"] [ [Str "N1"] ]) = Ok (mkDF [] []).
Proof.
  split.
  - match goal with |- select_output_cols ?df = _ =>
      destruct (select_output_cols_projects df) as (_ & Hsome & _)
    end.
    { apply (bool_decide_unpack _). vm_compute. exact I. }
    destruct Hsome as (out & -> & Hc & Hr & _).
    { vm_compute. discriminate. }
    destruct out as [cs rs]. cbn [columns rows] in Hc, Hr. rewrite Hc, Hr.
    vm_compute. reflexivity.
  - match goal with |- select_output_cols ?df = _ =>
      destruct (select_output_cols_projects df) as (Hnone & _)
    end.
    { apply (bool_decide_unpack _). vm_compute. exact I. }
    apply Hnone. vm_compute. reflexivity.
Defined.

(** C6, as stated for every batch and about the columns of the batch
    itself, fails twice.  A batch none of whose labels is in [OUTPUT_COLS]
    does not give the frame without columns: its columns are renamed first
    and then kept.  And a batch in which the renaming pass repeats a label
    of [OUTPUT_COLS] keeps both columns, so that the result has a column of
    the batch whose label is not in [OUTPUT_COLS], and one label twice. *)
Lemma select_output_cols_renames_and_repeats :
  filter (λ c, c ∈ columns unreconciled_batch) OUTPUT_COLS = []
  ∧ select_output_cols unreconciled_batch
    = Ok (mkDF ["FL_DATE"; "DEST"] [ [Str "2023-01-01"; Str "LGA"] ])
  ∧ NoDup (columns repeated_date_batch)
  ∧ ("fl_date" ∉ OUTPUT_COLS)
  ∧ select_output_cols repeated_date_batch

    = Ok (mkDF ["FL_DATE"; "FL_DATE"; "OP_UNIQUE_CARRIER"]
               [ [Str "2023-01-01"; Str "2023-01-02"; Str "AA"] ])
  ∧ ¬ NoDup ["FL_DATE"; "FL_DATE"; "OP_UNIQUE_CARRIER"].
Proof.
  split_and!; [vm_compute; reflexivity|vm_compute; reflexivity
              |apply (bool_decide_unpack _); vm_compute; exact I
              |apply (bool_decide_unpack _); vm_compute; exact I
              |vm_compute; reflexivity|].
  intros [H _]%NoDup_cons. apply H. by left.
Qed.

(** C7 (amended).  The domestic filter first renames the columns of its
    batch, then filters rows: whenever it returns, the labels of the result
    are those of the renamed batch and its rows are a selection, in order,
    of the rows of the batch; when the renamed batch lacks both the country
    pair and the state pair the result is the renamed batch with every row.
    On a batch that the renaming pass leaves alone (as any batch that has
    already been through it) the labels of the result are those of the
    batch, and in the no-signal case the batch comes back unchanged.  With
    distinct labels after renaming the filter does return. *)
Theorem filter_domestic_frame (df : DataFrame) (include_territories : bool) :
  let d := standardize_columns df in
  (∀ out, filter_domestic df include_territories = Ok out →
          columns out = columns d ∧ rows out `sublist_of` rows df)
  ∧ (domestic_signal (columns d) = NoSignal →
     filter_domestic df include_territories = Ok d)
  ∧ (standardize_columns df = df →
     ∀ out, filter_domestic df include_territories = Ok out →
            columns out = columns df)
  ∧ (standardize_columns df = df → domestic_signal (columns df) = NoSignal →
     filter_domestic df include_territories = Ok df)
  ∧ (NoDup (columns d) → ∃ out, filter_domestic df include_territories = Ok out).
Proof.
  intros d. split_and!.
  - intros out. apply filter_domestic_Ok.
  - apply filter_domestic_no_signal.
  - intros Hfix out [Hc _]%filter_domestic_Ok. by rewrite Hfix in Hc.
  - intros Hfix Hsig. rewrite <- Hfix at 2.
    apply filter_domestic_no_signal. by rewrite Hfix.
  - intros Hnd. eexists. by apply filter_domestic_filter.
Qed.

Lemma filter_domestic_frame_witness :
  filter_domestic canonical_batch true = Ok canonical_batch.
Proof.
  destruct (filter_domestic_frame canonical_batch true) as (_ & _ & _ & Hsame & _).
  apply Hsame; vm_compute; reflexivity.
Defined.

(** C7, as stated, fails on a batch that has not been renamed yet: it has
    neither the country pair nor the state pair, and the filter hands back
    other labels. *)
Lemma filter_domestic_renames_raw_batch :
  domestic_signal (columns raw_batch) = NoSignal
  ∧ ∃ out, filter_domestic raw_batch true = Ok out
      ∧ columns out = ["FL_DATE"; "MKT_UNIQUE_CARRIER"]
      ∧ columns out ≠ columns raw_batch
      ∧ out ≠ raw_batch.
Proof.
  split; [vm_compute; reflexivity|].
  eexists. split; [vm_compute; reflexivity|].
  split_and!; [done|cbn; discriminate..].
Qed.

(** C8. Appending an empty frame writes nothing and hands the flag back;
    appending a non-empty frame writes a header line exactly when the flag
    is false, then the data lines, and hands back true, so a true flag stays
    true.  Over a run that starts with an empty file and a false flag,
    nothing is written while months are skipped (empty, or failed), the
    first non-empty month writes the one header line, and every later line
    is a data line. *)
Theorem append_write_header_once :
  (∀ df out h, empty df = true → append_write df out h = (out, h))
  ∧ (∀ df out h, empty df = false →
       append_write df out h
       = (out ++ (if h then [] else [Header (columns df)]) ++ map Data (rows df), true))
  ∧ (∀ df out, (append_write df out true).2 = true)
  ∧ (∀ months, Forall skipped months → main_append months = ([], false))
  ∧ (∀ pre dfm post, Forall skipped pre → empty dfm = false →
       main_append (pre ++ Ok dfm :: post)
       = (Header (columns dfm) :: map Data (rows dfm) ++ data_lines post, true))
  ∧ (∀ months, Forall (λ l, is_header l = false) (data_lines months)).
Proof.
  split_and!.
  - intros df out h E. unfold append_write. by rewrite E.
  - intros df out h E. unfold append_write, to_csv. rewrite E. by destruct h.
  - intros df out. unfold append_write. by destruct (empty df).
  - intros months Hs. unfold main_append. by apply foldl_main_step_skipped.
  - intros pre dfm post Hs E. unfold main_append.
    rewrite foldl_app, (foldl_main_step_skipped _ pre) by done. cbn [foldl main_step].
    unfold append_write. cbn [fst snd]. rewrite E. cbn [app negb to_csv].
    by rewrite foldl_main_step_written.
  - apply data_lines_no_header.
Qed.

Lemma append_write_header_once_witness :
  main_append
    [ Ok empty_frame;
      Raise (KeyError missing_carrier []);
      Ok one_row_chunk;
      Ok empty_frame;
      Ok one_row_chunk ]
  = ([ Header ["OP_UNIQUE_CARRIER"]; Data [Str "AA"]; Data [Str "AA"] ], true).
Proof.
  destruct append_write_header_once as (_ & _ & _ & _ & Hfirst & _).
  apply (Hfirst [Ok empty_frame; Raise (KeyError missing_carrier [])] one_row_chunk
           [Ok empty_frame; Ok one_row_chunk]).
  - repeat constructor.
  - reflexivity.
Defined.

(** C9 (amended).  The chunk loop keeps every non-empty result in [parts]
    until the month is finished: after the loop [parts] is the list of the
    non-empty results, in order, so the rows it holds are all the rows
    selected in the month.  They never exceed the rows read, and they grow
    with the number of chunks that contribute: [n] copies of a one-row chunk
    leave [n] rows held. *)
Theorem chunk_loop_holds_selected_rows (reader : list DataFrame)
    (use_marketing include_territories : bool) (parts : list DataFrame) :
  chunk_loop reader use_marketing include_territories [] = Ok parts →
  (∃ results,
     mapM (λ c, process_chunk c use_marketing include_territories) reader = Ok results
     ∧ parts = List.filter nonempty results)
  ∧ (held_rows parts ≤ rows_read reader)%nat
  ∧ ∀ n, chunk_loop (replicate n one_row_chunk) false true []
         = Ok (replicate n one_row_chunk)
         ∧ held_rows (replicate n one_row_chunk) = n.
Proof.
  intros (results & Hres & ->)%chunk_loop_Ok. split_and!.
  - by exists results.
  - by eapply mapM_process_rows.
  - intros n. split.
    + by rewrite (chunk_loop_replicate _ _ _ _ n [] process_one_row_chunk).
    + rewrite held_rows_replicate. cbn. lia.
Qed.

Lemma chunk_loop_holds_selected_rows_witness :
  held_rows [one_row_chunk; one_row_chunk; one_row_chunk] = 3
  ∧ (held_rows [one_row_chunk; one_row_chunk; one_row_chunk]
     ≤ rows_read [one_row_chunk; one_row_chunk; one_row_chunk])%nat.
Proof.
  destruct (chunk_loop_holds_selected_rows
              [one_row_chunk; one_row_chunk; one_row_chunk] false true
              [one_row_chunk; one_row_chunk; one_row_chunk]) as (_ & Hle & Hn).
  - vm_compute. reflexivity.
  - split; [apply (Hn 3)|exact Hle].
Defined.

(** C9, as stated, fails: no constant added to the largest chunk bounds the
    rows held in [parts]. *)
Lemma parts_not_bounded_by_one_batch : ¬ bounded_by_one_batch.
Proof.
  intros [k Hk].
  specialize (Hk (replicate (k + 2) one_row_chunk) false true
                 (replicate (k + 2) one_row_chunk)).
  rewrite (chunk_loop_replicate _ _ _ _ _ [] process_one_row_chunk) in Hk by done.
  specialize (Hk eq_refl). rewrite held_rows_replicate in Hk.
  pose proof (largest_chunk_replicate one_row_chunk (k + 2)) as Hmax.
  cbn [rows one_row_chunk length] in *. lia.
Qed.

(** C10. When both country columns are present, in the batch or after the
    renaming pass of the filter, the filter gives the same outcome whether
    territories are included or not. *)
Theorem filter_domestic_territories_irrelevant (df : DataFrame) :
  let d := standardize_columns df in
  ("ORIGIN_COUNTRY_NAME" ∈ columns df ∧ "DEST_COUNTRY_NAME" ∈ columns df)
  ∨ ("ORIGIN_COUNTRY_NAME" ∈ columns d ∧ "DEST_COUNTRY_NAME" ∈ columns d) →
  filter_domestic df true = filter_domestic df false.
Proof.
  intros d Hboth.
  assert ("ORIGIN_COUNTRY_NAME" ∈ columns d ∧ "DEST_COUNTRY_NAME" ∈ columns d)
    as [Ho Hd].
  { destruct Hboth as [[Ho Hd]|H]; [|done].
    split; apply canonical_label_stays; try done;
      apply (bool_decide_unpack _); vm_compute; exact I. }
  subst d. revert Ho Hd. unfold filter_domestic. cbv zeta.
  generalize (standardize_columns df). intros d Ho Hd.
  by rewrite (proj2 (has_column_true d _) Ho), (proj2 (has_column_true d _) Hd).
Qed.

Lemma filter_domestic_territories_irrelevant_witness :
  filter_domestic country_batch true = filter_domestic country_batch false.
Proof.
  apply filter_domestic_territories_irrelevant. right.
  split; apply (bool_decide_unpack _); vm_compute; exact I.
Defined.

(** * Further properties *)

(** ** Keys *)

Lemma _norm_app (s1 s2 : string) : _norm (s1 ++ s2) = (_norm s1 ++ _norm s2)%string.
Proof.
  induction s1 as [|a s1 IH]; [done|].
  change (String a s1 ++ s2)%string with (String a (s1 ++ s2)).
  rewrite !_norm_cons, IH.
  generalize (PyStr.re_sub_non_AZ09 (PyStr.upper_cp a)). intros p.
  induction p as [|b p IHp]; [done|].
  change (String b p ++ _norm s1 ++ _norm s2)%string
    with (String b (p ++ _norm s1 ++ _norm s2)).
  by rewrite IHp.
Qed.

Lemma key_char_fixed (a : ascii) :
  key_char a → PyStr.re_sub_non_AZ09 (PyStr.upper_cp a) = String a "".
Proof.
  unfold key_char. destruct a as [b0 b1 b2 b3 b4 b5 b6 b7].
  by destruct b0, b1, b2, b3, b4, b5, b6, b7.
Qed.

Lemma upper_cp_key_chars (a : ascii) :
  Forall key_char (list_ascii_of_string (PyStr.re_sub_non_AZ09 (PyStr.upper_cp a))).
Proof.
  apply Forall_forall. intros c Hc%list_elem_of_In. revert c Hc.
  apply forallb_forall. destruct a as [b0 b1 b2 b3 b4 b5 b6 b7].
  by destruct b0, b1, b2, b3, b4, b5, b6, b7.
Qed.

Lemma list_ascii_of_string_app (s1 s2 : string) :
  list_ascii_of_string (s1 ++ s2)
  = list_ascii_of_string s1 ++ list_ascii_of_string s2.
Proof.
  induction s1 as [|a s1 IH]; [done|].
  change (String a s1 ++ s2)%string with (String a (s1 ++ s2)).
  cbn [list_ascii_of_string]. by rewrite IH.
Qed.

Lemma _norm_key_chars (s : string) : Forall key_char (list_ascii_of_string (_norm s)).
Proof.
  induction s as [|a s IH]; [constructor|].
  rewrite _norm_cons, list_ascii_of_string_app. apply Forall_app. split; [|done].
  apply upper_cp_key_chars.
Qed.

Lemma _norm_fixed (s : string) :
  Forall key_char (list_ascii_of_string s) → _norm s = s.
Proof.
  induction s as [|a s IH]; [done|]. cbn [list_ascii_of_string].
  intros [Ha Hs]%Forall_cons. by rewrite _norm_cons, key_char_fixed, IH.
Qed.

Lemma upper_cp_ascii_upper (a : ascii) :
  PyStr.re_sub_non_AZ09 (PyStr.upper_cp (PyStr.ascii_upper_char a))
  = PyStr.re_sub_non_AZ09 (PyStr.upper_cp a).
Proof.
  destruct a as [b0 b1 b2 b3 b4 b5 b6 b7].
  by destruct b0, b1, b2, b3, b4, b5, b6, b7.
Qed.

(** X1. A key consists of the characters A-Z and 0-9 only, and taking the
    key of a key changes nothing. *)
Theorem _norm_idempotent (s : string) :
  Forall key_char (list_ascii_of_string (_norm s)) ∧ _norm (_norm s) = _norm s.
Proof. split; [apply _norm_key_chars|apply _norm_fixed, _norm_key_chars]. Qed.

(** X2. The key of a concatenation is the concatenation of the keys.  Hence
    an ASCII character that is neither a letter nor a digit can be inserted
    anywhere in a name, and an ASCII letter can change case, without
    changing the key. *)
Theorem _norm_insensitive (s1 s2 : string) (a : ascii) :
  _norm (s1 ++ s2) = (_norm s1 ++ _norm s2)%string
  ∧ (PyStr.is_ascii a = true → PyStr.is_ascii_alnum a = false →
     _norm (s1 ++ String a s2) = _norm (s1 ++ s2))
  ∧ _norm (s1 ++ String (PyStr.ascii_upper_char a) s2) = _norm (s1 ++ String a s2).
Proof.
  split_and!.
  - apply _norm_app.
  - intros Ha Hal. rewrite !_norm_app, _norm_cons, upper_then_strip_ascii by done.
    by rewrite Hal.
  - by rewrite !_norm_app, !_norm_cons, upper_cp_ascii_upper.
Qed.

Lemma _norm_insensitive_witness :
  _norm "Origin_State" = _norm "OriginState"
  ∧ _norm "originState" = _norm "OriginState".
Proof.
  split.
  - refine (proj1 (proj2 (_norm_insensitive "Origin" "State" "_"%char)) _ _);
      vm_compute; reflexivity.
  - exact (proj2 (proj2 (_norm_insensitive "" "riginState" "o"%char))).
Defined.

(** ** Renaming, label by label *)

Lemma columns_standardize_columns (df : DataFrame) :
  columns (standardize_columns df) = map (renamed (columns df)) (columns df).
Proof.
  unfold standardize_columns. rewrite standardize_columns_with_rename.
  unfold rename, renamed. cbn [columns]. reflexivity.
Qed.

Lemma columns_standardize_frame (cols : list string) (rs : list (list value)) :
  columns (standardize_columns (mkDF cols rs)) = map (renamed cols) cols.
Proof. exact (columns_standardize_columns (mkDF cols rs)). Qed.

Lemma renamed_Some (cols : list string) (c canon : string) :
  rename_map CANON_MAP (norm_to_actual cols) !! c = Some canon →
  ∃ aliases a, (canon, aliases) ∈ CANON_MAP ∧ a ∈ aliases
    ∧ first_alias (norm_to_actual cols) aliases = Some c
    ∧ _norm c = _norm a ∧ last_with_key cols c.
Proof.
  intros (aliases & Hin & Hfa)%rename_map_Some_inv.
  pose proof Hfa as (pre & a & post & -> & _ & Ha)%first_alias_Some.
  apply norm_to_actual_Some in Ha as (l1 & l2 & -> & Hn & Hl2).
  exists (pre ++ a :: post), a. split_and!; [done| |done..|].
  - apply elem_of_app. right. by left.
  - exists l1, l2. split; [done|]. intros x Hx. rewrite Hn. by apply Hl2.
Qed.

Lemma renamed_canonical (cols : list string) (canon : string) (aliases : list string) :
  (canon, aliases) ∈ CANON_MAP → renamed cols canon = canon.
Proof.
  intros He. unfold renamed.
  destruct (rename_map CANON_MAP (norm_to_actual cols) !! canon) as [canon'|] eqn:E; [|done].
  apply renamed_Some in E as (aliases' & a & Hin & Ha & _ & Hn & _).
  cbn [default from_option id].
  assert ((canon, aliases) = (canon', aliases')) as E'; [|congruence].
  eapply (apart _ CANON_MAP_keys_apart); [done..| |exact Ha|done].
  apply (self_alias_elem _ CANON_MAP_self_first _ He).
Qed.

Lemma NoDup_fmap_eq {A B : Type} (g : A → B) (l : list A) (x y : A) :
  NoDup (map g l) → x ∈ l → y ∈ l → g x = g y → x = y.
Proof.
  induction l as [|z l IH]; [by intros _ Hx; inversion Hx|].
  cbn [map]. intros [Hz Hnd]%NoDup_cons Hx Hy Hg.
  apply elem_of_cons in Hx as [->|Hx]; apply elem_of_cons in Hy as [->|Hy]; [done| | |by apply IH].
  - exfalso. apply Hz. rewrite Hg. apply list_elem_of_fmap. by exists y.
  - exfalso. apply Hz. rewrite <- Hg. apply list_elem_of_fmap. by exists x.
Qed.

(** X3. The renaming pass keeps the rows and puts one label in the place of
    each label.  A label either stays, or becomes the canonical name of a
    field one of whose aliases has the key of the label; a label whose key
    is the key of no alias always stays, and a canonical name always stays. *)
Theorem standardize_columns_relabels (df : DataFrame) (c : string) :
  rows (standardize_columns df) = rows df
  ∧ columns (standardize_columns df) = map (renamed (columns df)) (columns df)
  ∧ (renamed (columns df) c = c
     ∨ ∃ aliases a, (renamed (columns df) c, aliases) ∈ CANON_MAP
         ∧ a ∈ aliases ∧ _norm c = _norm a)
  ∧ (¬ alias_key c → renamed (columns df) c = c)
  ∧ (c ∈ CANON_MAP.*1 → renamed (columns df) c = c).
Proof.
  assert (renamed (columns df) c = c
          ∨ ∃ aliases a, (renamed (columns df) c, aliases) ∈ CANON_MAP
              ∧ a ∈ aliases ∧ _norm c = _norm a) as Hcases.
  { unfold renamed.
    destruct (rename_map CANON_MAP (norm_to_actual (columns df)) !! c)
      as [canon|] eqn:E; [|by left].
    right. apply renamed_Some in E as (aliases & a & ? & ? & _ & ? & _).
    by exists aliases, a. }
  split_and!; [apply standardize_columns_rows|apply columns_standardize_columns|done| |].
  - intros Hno. destruct Hcases as [?|(aliases & a & Hin & Ha & Hn)]; [done|].
    exfalso. apply Hno. by exists (renamed (columns df) c, aliases), a.
  - intros ([canon aliases] & -> & He)%list_elem_of_fmap.
    apply (renamed_canonical _ _ _ He).
Qed.

Lemma standardize_columns_relabels_witness :
  renamed ["Tail_Number"; "FlightDate"] "Tail_Number" = "Tail_Number"
  ∧ renamed ["Tail_Number"; "FL_DATE"] "FL_DATE" = "FL_DATE".
Proof.
  split.
  - destruct (standardize_columns_relabels (mkDF ["Tail_Number"; "FlightDate"] [])
                "Tail_Number") as (_ & _ & _ & Hno & _).
    apply Hno. intros (e & a & He & Ha & Hn).
    assert (Forall (λ e, Forall (λ a, _norm "Tail_Number" ≠ _norm a) e.2) CANON_MAP)
      as Hall by (apply (bool_decide_unpack _); vm_compute; exact I).
    rewrite Forall_forall in Hall. specialize (Hall e He).
    rewrite Forall_forall in Hall. exact (Hall a Ha Hn).
  - destruct (standardize_columns_relabels (mkDF ["Tail_Number"; "FL_DATE"] [])
                "FL_DATE") as (_ & _ & _ & _ & Hcanon).
    apply Hcanon. apply (bool_decide_unpack _). vm_compute. exact I.
Defined.

(** X4. Of the columns that share a key, only the last one can be renamed:
    a label that is renamed is the last label with its key, and every other
    label with that key stays as it is. *)
Theorem only_last_with_key_renamed (cols : list string) (c x : string) :
  renamed cols c ≠ c →
  last_with_key cols c
  ∧ (x ≠ c → _norm x = _norm c → renamed cols x = x).
Proof.
  unfold renamed at 1.
  destruct (rename_map CANON_MAP (norm_to_actual cols) !! c) as [canon|] eqn:E; [|done].
  intros _. pose proof E as (aliases & a & Hin & Ha & _ & Hn & Hlast)%renamed_Some.
  split; [done|]. intros Hne Hkey. unfold renamed.
  destruct (rename_map CANON_MAP (norm_to_actual cols) !! x) as [canon'|] eqn:E'; [|done].
  exfalso. pose proof E' as (aliases' & a' & Hin' & Ha' & _ & Hn' & _)%renamed_Some.
  assert ((canon', aliases') = (canon, aliases)) as [= -> ->].
  { eapply (apart _ CANON_MAP_keys_apart); [done..|exact Ha'|exact Ha|congruence]. }
  apply Hne. by eapply rename_map_one_binding.
Qed.

Lemma only_last_with_key_renamed_witness :
  renamed ["Origin_State"; "OriginState"] "Origin_State" = "Origin_State"
  ∧ renamed ["Origin_State"; "OriginState"] "OriginState" = "ORIGIN_STATE_ABR".
Proof.
  split; [|vm_compute; reflexivity].
  apply (only_last_with_key_renamed _ "OriginState"); vm_compute; [discriminate..|reflexivity].
Defined.

Lemma renamed_lookup_Some (cols : list string) (c canon : string) :
  rename_map CANON_MAP (norm_to_actual cols) !! c = Some canon → renamed cols c = canon.
Proof. intros E. unfold renamed. by rewrite E. Qed.

Lemma renamed_lookup_None (cols : list string) (c : string) :
  rename_map CANON_MAP (norm_to_actual cols) !! c = None → renamed cols c = c.
Proof. intros E. unfold renamed. by rewrite E. Qed.

Lemma renamed_twice (cols : list string) (c : string) :
  renamed cols (renamed cols c) = renamed cols c.
Proof.
  destruct (rename_map CANON_MAP (norm_to_actual cols) !! c) as [canon|] eqn:E.
  - rewrite (renamed_lookup_Some _ _ _ E).
    apply renamed_Some in E as (aliases & _ & He & _).
    apply (renamed_canonical cols canon aliases He).
  - by rewrite !(renamed_lookup_None _ _ E).
Qed.

Lemma renamed_elem (cols : list string) (c : string) :
  renamed cols c ≠ c → c ∈ cols.
Proof.
  destruct (rename_map CANON_MAP (norm_to_actual cols) !! c) as [canon|] eqn:E.
  - intros _. apply renamed_Some in E as (_ & _ & _ & _ & _ & _ & l1 & l2 & -> & _).
    apply elem_of_app. right. by left.
  - by rewrite (renamed_lookup_None _ _ E).
Qed.

(** X5. The renaming pass can produce a repeated label: when a column is
    renamed to a canonical name that is itself a label of the frame, the
    renamed frame carries that name twice. *)
Theorem standardize_columns_repeats_label (cols : list string)
    (rs : list (list value)) (c : string) :
  renamed cols c ≠ c → renamed cols c ∈ cols →
  ¬ NoDup (columns (standardize_columns (mkDF cols rs))).
Proof.
  intros Hne Hin Hnd. rewrite columns_standardize_frame in Hnd.
  apply Hne. symmetry.
  apply (NoDup_fmap_eq (renamed cols) cols c (renamed cols c) Hnd);
    [by apply renamed_elem|done|by rewrite renamed_twice].
Qed.

Lemma standardize_columns_repeats_label_witness :
  columns (standardize_columns (mkDF ["FL_DATE"; "fl_date"] [])) = ["FL_DATE"; "FL_DATE"]
  ∧ ¬ NoDup (columns (standardize_columns (mkDF ["FL_DATE"; "fl_date"] []))).
Proof.
  split; [vm_compute; reflexivity|].
  apply (standardize_columns_repeats_label _ _ "fl_date").
  - vm_compute. discriminate.
  - apply (bool_decide_unpack _). vm_compute. exact I.
Defined.

(** X6. When the labels of a frame have pairwise different keys, the labels
    of the renamed frame are pairwise different. *)
Theorem distinct_keys_distinct_labels (cols : list string) (rs : list (list value)) :
  NoDup (map _norm cols) →
  NoDup (columns (standardize_columns (mkDF cols rs))).
Proof.
  intros Hkeys. rewrite columns_standardize_frame.
  apply NoDup_fmap_2_strong; [|by eapply NoDup_fmap_1].
  assert (∀ x y canon, x ∈ cols → y ∈ cols →
            rename_map CANON_MAP (norm_to_actual cols) !! x = Some canon →
            rename_map CANON_MAP (norm_to_actual cols) !! y = None →
            canon = y → x = y) as Hmixed.
  { intros x y canon Hx Hy Ex Ey <-.
    apply renamed_Some in Ex as (aliases & a & Hin & Ha & Hfa & _).
    destruct (self_alias _ CANON_MAP_self_first _ Hin) as [rest Erest].
    cbn in Erest. subst aliases. cbn in Hfa.
    destruct (norm_to_actual_is_Some cols canon Hy) as [z Hz].
    rewrite Hz in Hfa. injection Hfa as ->.
    apply norm_to_actual_elem in Hz as [_ Hn].
    by apply (NoDup_fmap_eq _norm cols). }
  intros x y Hx Hy. unfold renamed.
  destruct (rename_map CANON_MAP (norm_to_actual cols) !! x) as [cx|] eqn:Ex;
    destruct (rename_map CANON_MAP (norm_to_actual cols) !! y) as [cy|] eqn:Ey; cbn.
  - intros ->. by eapply rename_map_one_binding.
  - by apply Hmixed.
  - intros E. symmetry. by eapply Hmixed.
  - done.
Qed.

Lemma distinct_keys_distinct_labels_witness :
  NoDup (columns (standardize_columns scenario_A)).
Proof.
  apply (distinct_keys_distinct_labels (columns scenario_A) (rows scenario_A)).
  apply (bool_decide_unpack _). vm_compute. exact I.
Defined.

(** ** Stages as label decisions and row operations *)

Lemma select_rows_filter (b : list value → bool) (rs : list (list value)) :
  select_rows rs (map b rs) = List.filter b rs.
Proof.
  induction rs as [|r rs IH]; [done|]. cbn [map select_rows List.filter].
  destruct (b r); by rewrite IH.
Qed.

Lemma getitem_labels (df : DataFrame) (c : string) :
  getitem df c = i ← labels_position (columns df) c; Ok (map (cell i) (rows df)).
Proof. reflexivity. Qed.

Lemma list_filter_true {A : Type} (l : list A) : List.filter (λ _, true) l = l.
Proof. induction l as [|x l IH]; [done|]. cbn. by rewrite IH. Qed.

Lemma list_filter_false {A : Type} (l : list A) : List.filter (λ _, false) l = [].
Proof. by induction l. Qed.

Lemma list_filter_filter_andb {A : Type} (b1 b2 : A → bool) (l : list A) :
  List.filter b2 (List.filter b1 l) = List.filter (λ x, b1 x && b2 x) l.
Proof.
  induction l as [|x l IH]; [done|]. cbn [List.filter].
  destruct (b1 x); cbn [List.filter andb]; [destruct (b2 x)|]; by rewrite IH.
Qed.

Lemma list_filter_idemp {A : Type} (b : A → bool) (l : list A) :
  List.filter b (List.filter b l) = List.filter b l.
Proof.
  rewrite list_filter_filter_andb. apply List.filter_ext. intros x. by destruct (b x).
Qed.

Lemma list_filter_sublist {A : Type} (b : A → bool) (l : list A) :
  List.filter b l `sublist_of` l.
Proof.
  induction l as [|x l IH]; [done|]. cbn [List.filter].
  destruct (b x); [by apply sublist_skip|by apply sublist_cons].
Qed.

Lemma list_filter_impl_sublist {A : Type} (b1 b2 : A → bool) (l : list A) :
  (∀ x, b1 x = true → b2 x = true) →
  List.filter b1 l `sublist_of` List.filter b2 l.
Proof.
  intros Himp. induction l as [|x l IH]; [done|]. cbn [List.filter].
  destruct (b1 x) eqn:E1.
  - rewrite (Himp x E1). by apply sublist_skip.
  - destruct (b2 x); [by apply sublist_cons|done].
Qed.

(** A frame that carries the labels of a renamed frame is left alone by the
    renaming pass. *)
Lemma standardize_columns_fixed_labels (df df' : DataFrame) :
  columns df' = columns (standardize_columns df) → standardize_columns df' = df'.
Proof.
  intros E. unfold standardize_columns.
  apply settled_fixed. rewrite E.
  apply standardize_settled; [apply CANON_MAP_self_first|apply CANON_MAP_keys_apart].
Qed.

Lemma settled_fixed_frame (cols : list string) (rs : list (list value)) :
  settled CANON_MAP cols → standardize_columns (mkDF cols rs) = mkDF cols rs.
Proof. intros Hs. unfold standardize_columns. apply settled_fixed. exact Hs. Qed.

Lemma standardize_columns_fixed_frame (df : DataFrame) (rs : list (list value)) :
  standardize_columns (mkDF (columns (standardize_columns df)) rs)
  = mkDF (columns (standardize_columns df)) rs.
Proof.
  apply settled_fixed_frame.
  apply standardize_settled; [apply CANON_MAP_self_first|apply CANON_MAP_keys_apart].
Qed.

Lemma standardize_columns_twice (df : DataFrame) :
  standardize_columns (standardize_columns df) = standardize_columns df.
Proof.
  apply standardize_with_idempotent;
    [apply CANON_MAP_self_first|apply CANON_MAP_keys_apart].
Qed.

Lemma filter_domestic_plan (df : DataFrame) (include_territories : bool) :
  filter_domestic df include_territories
  = b ← domestic_keep (columns (standardize_columns df)) include_territories;
    Ok (mkDF (columns (standardize_columns df)) (List.filter b (rows df))).
Proof.
  rewrite <- (standardize_columns_rows df).
  unfold filter_domestic, domestic_keep, has_column. cbv zeta.
  generalize (standardize_columns df). intros d.
  destruct (bool_decide ("ORIGIN_COUNTRY_NAME" ∈ columns d)
            && bool_decide ("DEST_COUNTRY_NAME" ∈ columns d)).
  { rewrite !getitem_labels.
    destruct (labels_position (columns d) "ORIGIN_COUNTRY_NAME") as [i|]; [|done].
    destruct (labels_position (columns d) "DEST_COUNTRY_NAME") as [j|]; [|done].
    rewrite !bind_Ok. unfold loc. do 2 f_equal.
    by rewrite !map_map, mask_and_map, select_rows_filter. }
  destruct (bool_decide ("ORIGIN_STATE_ABR" ∈ columns d)
            && bool_decide ("DEST_STATE_ABR" ∈ columns d)).
  { rewrite !getitem_labels.
    destruct (labels_position (columns d) "ORIGIN_STATE_ABR") as [i|]; [|done].
    destruct (labels_position (columns d) "DEST_STATE_ABR") as [j|]; [|done].
    rewrite !bind_Ok. destruct include_territories; rewrite bind_Ok; unfold loc; do 2 f_equal.
    - by rewrite !map_map, mask_and_map, select_rows_filter.
    - by rewrite !map_map, !mask_not_map, !mask_and_map, select_rows_filter. }
  rewrite bind_Ok, list_filter_true. by destruct d.
Qed.

Lemma keep_aa_plan (df : DataFrame) (use_marketing : bool) :
  keep_aa df use_marketing
  = b ← carrier_keep (columns (standardize_columns df)) use_marketing;
    Ok (mkDF (columns (standardize_columns df)) (List.filter b (rows df))).
Proof.
  rewrite <- (standardize_columns_rows df).
  unfold keep_aa, carrier_keep. cbv zeta. generalize (standardize_columns df). intros d.
  destruct (carrier_column (columns d) use_marketing) as [col|]; [|done].
  case_decide; [done|]. rewrite getitem_labels.
  destruct (labels_position (columns d) col) as [i|]; [|done].
  rewrite !bind_Ok. unfold loc. do 2 f_equal.
  by rewrite map_map, select_rows_filter.
Qed.

Lemma kept_NoDup (cols : list string) : NoDup (kept_labels cols).
Proof.
  unfold kept_labels.
  rewrite (list_filter_Prop _ (λ c, c ∈ cols)) by (intros; apply bool_decide_eq_true).
  apply NoDup_filter, OUTPUT_COLS_NoDup.
Qed.

Lemma process_chunk_plan (chunk : DataFrame) (um it : bool) :
  process_chunk chunk um it
  = p ← chunk_plan (columns (standardize_columns chunk)) um it;
    Ok (run_plan p (rows chunk)).
Proof.
  unfold process_chunk, chunk_plan. cbv zeta.
  pose proof (standardize_columns_fixed_frame chunk) as Hfix.
  pose proof (standardize_columns_twice chunk) as Hd.
  rewrite <- (standardize_columns_rows chunk).
  revert Hfix Hd. generalize (standardize_columns chunk). intros d Hfix Hd.
  rewrite filter_domestic_plan, Hd.
  destruct (domestic_keep (columns d) it) as [b1|]; [|done]. rewrite !bind_Ok.
  rewrite keep_aa_plan, Hfix. cbn [columns rows].
  destruct (carrier_keep (columns d) um) as [b2|]; [|done]. rewrite !bind_Ok.
  rewrite select_output_cols_form. cbv zeta. rewrite Hfix. cbn [columns rows].
  unfold run_plan.
  destruct (kept_labels (columns d)); cbn [plan_labels plan_keep plan_project].
  - by rewrite list_filter_false.
  - by rewrite list_filter_filter_andb.
Qed.

Lemma frame_eta (df : DataFrame) : mkDF (columns df) (rows df) = df.
Proof. by destruct df. Qed.

(** X7. Whether a chunk is accepted, and with which labels, is decided by
    the labels of the chunk alone; an accepted chunk is then handled row by
    row: each row is kept or dropped by a test on that row, and a kept row
    is projected on its own. *)
Theorem process_chunk_rowwise (cols : list string)
    (use_marketing include_territories : bool) :
  (∃ e, ∀ rs, process_chunk (mkDF cols rs) use_marketing include_territories = Raise e)
  ∨ (∃ labels keep proj,
       ∀ rs, process_chunk (mkDF cols rs) use_marketing include_territories
             = Ok (mkDF labels (map proj (List.filter keep rs)))).
Proof.
  destruct (chunk_plan (map (renamed cols) cols) use_marketing include_territories)
    as [p|e] eqn:E.
  - right. exists (plan_labels p), (plan_keep p), (plan_project p). intros rs.
    by rewrite process_chunk_plan, columns_standardize_frame, E.
  - left. exists e. intros rs.
    by rewrite process_chunk_plan, columns_standardize_frame, E.
Qed.

Lemma standardize_columns_labels_settled (df : DataFrame) :
  settled CANON_MAP (columns (standardize_columns df)).
Proof.
  apply standardize_settled; [apply CANON_MAP_self_first|apply CANON_MAP_keys_apart].
Qed.

Lemma filter_domestic_settled (cols : list string) (rs : list (list value)) (it : bool) :
  settled CANON_MAP cols →
  filter_domestic (mkDF cols rs) it
  = b ← domestic_keep cols it; Ok (mkDF cols (List.filter b rs)).
Proof. intros Hs. by rewrite filter_domestic_plan, settled_fixed_frame. Qed.

Lemma keep_aa_settled (cols : list string) (rs : list (list value)) (um : bool) :
  settled CANON_MAP cols →
  keep_aa (mkDF cols rs) um
  = b ← carrier_keep cols um; Ok (mkDF cols (List.filter b rs)).
Proof. intros Hs. by rewrite keep_aa_plan, settled_fixed_frame. Qed.

(** X9. Both row filters are idempotent: applied to a frame they have
    returned, they return it again. *)
Theorem filters_idempotent (df out : DataFrame) :
  (∀ it, filter_domestic df it = Ok out → filter_domestic out it = Ok out)
  ∧ (∀ um, keep_aa df um = Ok out → keep_aa out um = Ok out).
Proof.
  pose proof (standardize_columns_labels_settled df) as Hs. split.
  - intros it. rewrite (filter_domestic_plan df). revert Hs.
    generalize (columns (standardize_columns df)) (rows df). intros cols rs Hs.
    destruct (domestic_keep cols it) as [b|] eqn:E; [|done]. rewrite bind_Ok.
    intros [= <-]. by rewrite filter_domestic_settled, E, bind_Ok, list_filter_idemp.
  - intros um. rewrite (keep_aa_plan df). revert Hs.
    generalize (columns (standardize_columns df)) (rows df). intros cols rs Hs.
    destruct (carrier_keep cols um) as [b|] eqn:E; [|done]. rewrite bind_Ok.
    intros [= <-]. by rewrite keep_aa_settled, E, bind_Ok, list_filter_idemp.
Qed.

Lemma filters_idempotent_witness :
  filter_domestic (mkDF ["ORIGIN_STATE_ABR"; "DEST_STATE_ABR"] [ [Str "TX"; Str "NY"] ]) false
  = Ok (mkDF ["ORIGIN_STATE_ABR"; "DEST_STATE_ABR"] [ [Str "TX"; Str "NY"] ]).
Proof.
  apply (proj1 (filters_idempotent scenario_D_mixed _) false).
  vm_compute. reflexivity.
Defined.

(** X10. The two row filters commute: when each of them accepts a frame,
    filtering by carrier what the domestic filter returned and filtering
    for domestic flights what the carrier filter returned give the same
    frame. *)
Theorem filters_commute (df a b : DataFrame) (use_marketing include_territories : bool) :
  filter_domestic df include_territories = Ok a →
  keep_aa df use_marketing = Ok b →
  ∃ out, keep_aa a use_marketing = Ok out
       ∧ filter_domestic b include_territories = Ok out.
Proof.
  pose proof (standardize_columns_labels_settled df) as Hs.
  rewrite (filter_domestic_plan df), (keep_aa_plan df). revert Hs.
  generalize (columns (standardize_columns df)) (rows df). intros cols rs Hs.
  destruct (domestic_keep cols include_territories) as [b1|] eqn:E1; [|done].
  destruct (carrier_keep cols use_marketing) as [b2|] eqn:E2; [|done].
  rewrite !bind_Ok. intros [= <-] [= <-].
  rewrite filter_domestic_settled, keep_aa_settled by done.
  rewrite E1, E2, !bind_Ok. eexists. split; [done|].
  do 2 f_equal. rewrite !list_filter_filter_andb.
  apply List.filter_ext. intros r. apply andb_comm.
Qed.

Lemma filters_commute_witness :
  ∃ out,
    keep_aa (mkDF ["ORIGIN_COUNTRY_NAME"; "DEST_COUNTRY_NAME"; "OP_UNIQUE_CARRIER"]
                  [ [Str "UNITED STATES"; Str "UNITED STATES"; Str "AA"];
                    [Str "UNITED STATES"; Str "UNITED STATES"; Str "UA"] ]) false = Ok out
    ∧ filter_domestic
        (mkDF ["ORIGIN_COUNTRY_NAME"; "DEST_COUNTRY_NAME"; "OP_UNIQUE_CARRIER"]
              [ [Str "UNITED STATES"; Str "UNITED STATES"; Str "AA"];
                [Str "CANADA"; Str "UNITED STATES"; Str "AA"] ]) true = Ok out.
Proof.
  apply (filters_commute
           (mkDF ["OriginCountryName"; "DestCountryName"; "Operating_Airline"]
                 [ [Str "UNITED STATES"; Str "UNITED STATES"; Str "AA"];
                   [Str "UNITED STATES"; Str "UNITED STATES"; Str "UA"];
                   [Str "CANADA"; Str "UNITED STATES"; Str "AA"] ]));
    vm_compute; reflexivity.
Defined.

Lemma domestic_keep_territories (cols : list string) (b1 : list value → bool) :
  domestic_keep cols false = Ok b1 →
  ∃ b2, domestic_keep cols true = Ok b2 ∧ ∀ r, b1 r = true → b2 r = true.
Proof.
  unfold domestic_keep.
  destruct (bool_decide ("ORIGIN_COUNTRY_NAME" ∈ cols)
            && bool_decide ("DEST_COUNTRY_NAME" ∈ cols)).
  { intros E. exists b1. by rewrite E. }
  destruct (bool_decide ("ORIGIN_STATE_ABR" ∈ cols)
            && bool_decide ("DEST_STATE_ABR" ∈ cols)).
  { destruct (labels_position cols "ORIGIN_STATE_ABR") as [i|]; [|done].
    destruct (labels_position cols "DEST_STATE_ABR") as [j|]; [|done].
    rewrite !bind_Ok. intros [= <-]. eexists. split; [done|].
    intros r [H _]%andb_true_iff. exact H. }
  intros [= <-]. by eexists.
Qed.

(** X11. Excluding the territories can only remove rows: whenever the
    domestic filter returns a frame with the territories excluded, it
    returns a frame of the same labels with them included, and the rows of
    the first are a selection, in order, of the rows of the second. *)
Theorem include_territories_keeps_more (df o1 : DataFrame) :
  filter_domestic df false = Ok o1 →
  ∃ o2, filter_domestic df true = Ok o2
      ∧ columns o2 = columns o1
      ∧ rows o1 `sublist_of` rows o2.
Proof.
  rewrite !filter_domestic_plan.
  generalize (columns (standardize_columns df)) (rows df). intros cols rs.
  destruct (domestic_keep cols false) as [b1|] eqn:E1; [|done]. rewrite bind_Ok.
  intros [= <-]. destruct (domestic_keep_territories _ _ E1) as (b2 & -> & Himp).
  rewrite bind_Ok. eexists. split; [done|]. split; [done|].
  cbn [rows]. by apply list_filter_impl_sublist.
Qed.

Lemma include_territories_keeps_more_witness :
  ∃ o2, filter_domestic scenario_D_mixed true = Ok o2
      ∧ columns o2 = ["ORIGIN_STATE_ABR"; "DEST_STATE_ABR"]
      ∧ [ [Str "TX"; Str "NY"] ] `sublist_of` rows o2.
Proof.
  apply (include_territories_keeps_more scenario_D_mixed
           (mkDF ["ORIGIN_STATE_ABR"; "DEST_STATE_ABR"] [ [Str "TX"; Str "NY"] ])).
  vm_compute. reflexivity.
Defined.

(** ** Exceptions in the chunk loop *)

Lemma chunk_loop_Raise (reader : list DataFrame) (um it : bool)
    (parts : list DataFrame) (e : exn) :
  chunk_loop reader um it parts = Raise e ↔
  ∃ pre bad post, reader = pre ++ bad :: post
    ∧ (∃ results, mapM (λ c, process_chunk c um it) pre = Ok results)
    ∧ process_chunk bad um it = Raise e.
Proof.
  revert parts. induction reader as [|c reader IH]; intros parts.
  - split; [done|]. intros (pre & bad & post & E & _). by destruct pre.
  - rewrite chunk_loop_cons. destruct (process_chunk c um it) as [r|e'] eqn:Ec.
    + rewrite bind_Ok, IH. split.
      * intros (pre & bad & post & -> & [results Hres] & Hbad).
        exists (c :: pre), bad, post. split_and!; [done| |done].
        exists (r :: results). by rewrite mapM_cons, Ec, bind_Ok, Hres.
      * intros (pre & bad & post & E & [results Hres] & Hbad).
        destruct pre as [|c' pre]; cbn [app] in E; injection E as E1 E2; subst.
        { congruence. }
        exists pre, bad, post. split_and!; [done| |done].
        rewrite mapM_cons, Ec, bind_Ok in Hres.
        destruct (mapM _ pre) as [rs'|]; [by eexists|done].
    + split.
      * intros [= ->]. exists [], c, reader. split_and!; [done|by exists []|done].
      * intros (pre & bad & post & E & [results Hres] & Hbad).
        destruct pre as [|c' pre]; cbn [app] in E; injection E as E1 E2; subst.
        { assert (e' = e) as -> by congruence. reflexivity. }
        by rewrite mapM_cons, Ec in Hres.
Qed.

(** X15. The chunk loop raises exactly when some chunk raises, and then
    with the exception of the first such chunk: the results of the chunks
    before it are not returned, whatever had been collected. *)
Theorem chunk_loop_first_exception (reader : list DataFrame)
    (use_marketing include_territories : bool) (parts : list DataFrame) (e : exn) :
  chunk_loop reader use_marketing include_territories parts = Raise e ↔
  ∃ pre bad post, reader = pre ++ bad :: post
    ∧ (∃ results,
         mapM (λ c, process_chunk c use_marketing include_territories) pre = Ok results)
    ∧ process_chunk bad use_marketing include_territories = Raise e.
Proof. apply chunk_loop_Raise. Qed.

Lemma chunk_loop_first_exception_witness :
  chunk_loop [one_row_chunk; no_carrier_batch; one_row_chunk] false true []
  = Raise (KeyError missing_carrier ["FL_DATE"; "ORIGIN"; "Tail_Number"]).
Proof.
  apply chunk_loop_first_exception.
  exists [one_row_chunk], no_carrier_batch, [one_row_chunk].
  split_and!; [done|eexists; vm_compute; reflexivity|vm_compute; reflexivity].
Defined.

Lemma labels_position_unique (cols : list string) (c : string) :
  NoDup cols → c ∈ cols → labels_position cols c = Ok (label_index c cols).
Proof. intros Hnd Hc. by apply (position_unique (mkDF cols [])). Qed.

Lemma domestic_keep_Ok (cols : list string) (it : bool) :
  NoDup cols → ∃ b, domestic_keep cols it = Ok b.
Proof.
  intros Hnd. unfold domestic_keep.
  destruct (bool_decide_reflect ("ORIGIN_COUNTRY_NAME" ∈ cols)) as [Ho|_]; cbn [andb].
  { destruct (bool_decide_reflect ("DEST_COUNTRY_NAME" ∈ cols)) as [Hd|_]; cbn [andb].
    { rewrite !labels_position_unique by done. by eexists. }
    destruct (bool_decide ("ORIGIN_STATE_ABR" ∈ cols)
              && bool_decide ("DEST_STATE_ABR" ∈ cols)) eqn:E; [|by eexists].
    apply andb_true_iff in E as [Hso%bool_decide_eq_true Hsd%bool_decide_eq_true].
    rewrite !labels_position_unique by done. destruct it; by eexists. }
  destruct (bool_decide ("ORIGIN_STATE_ABR" ∈ cols)
            && bool_decide ("DEST_STATE_ABR" ∈ cols)) eqn:E; [|by eexists].
  apply andb_true_iff in E as [Hso%bool_decide_eq_true Hsd%bool_decide_eq_true].
  rewrite !labels_position_unique by done. destruct it; by eexists.
Qed.

Lemma carrier_keep_missing (cols : list string) (um : bool) :
  MKT ∉ cols → OP ∉ cols → carrier_keep cols um = Raise (KeyError missing_carrier cols).
Proof.
  intros Hm Ho. unfold carrier_keep.
  assert (carrier_column cols um = None) as ->; [|done].
  destruct um; rewrite ?carrier_column_marketing, ?carrier_column_operating;
    by rewrite !bool_decide_eq_false_2.
Qed.

(** X16. A chunk that, after renaming, has neither carrier column is never
    accepted, not even when it has no rows or when the domestic filter
    would drop every row; with distinct labels the exception is the
    [KeyError] that lists the renamed labels. *)
Theorem process_chunk_needs_carrier (chunk : DataFrame)
    (use_marketing include_territories : bool) :
  let d := standardize_columns chunk in
  MKT ∉ columns d → OP ∉ columns d →
  (∃ e, process_chunk chunk use_marketing include_territories = Raise e)
  ∧ (NoDup (columns d) →
     process_chunk chunk use_marketing include_territories
     = Raise (KeyError missing_carrier (columns d))).
Proof.
  intros d Hm Ho. subst d. rewrite process_chunk_plan. unfold chunk_plan.
  rewrite (carrier_keep_missing _ use_marketing Hm Ho). clear Hm Ho.
  generalize (columns (standardize_columns chunk)). intros cols.
  split.
  - destruct (domestic_keep _ include_territories); by eexists.
  - intros Hnd. by destruct (domestic_keep_Ok _ include_territories Hnd) as [b ->].
Qed.

Lemma process_chunk_needs_carrier_witness :
  process_chunk (mkDF ["FlightDate"; "Origin"] []) true false
  = Raise (KeyError missing_carrier ["FL_DATE"; "ORIGIN"]).
Proof.
  refine (proj2 (process_chunk_needs_carrier (mkDF ["FlightDate"; "Origin"] []) true false _ _) _);
    apply (bool_decide_unpack _); vm_compute; exact I.
Defined.

(** ** The whole pass over a chunk *)

(** X8. With distinct labels after renaming and a carrier column [col]
    chosen, a pass over a chunk returns: the labels of [OUTPUT_COLS] that
    the renamed chunk has, in that order, and for every row that passes
    both the domestic test and the carrier test, in the order of the chunk,
    its cells under those labels; or the frame without columns and rows
    when the renamed chunk has none of the output labels. *)
Theorem process_chunk_selects (chunk : DataFrame)
    (use_marketing include_territories : bool) (col : string) :
  let d := standardize_columns chunk in
  let kept := filter (λ c, c ∈ columns d) OUTPUT_COLS in
  NoDup (columns d) →
  carrier_column (columns d) use_marketing = Some col →
  process_chunk chunk use_marketing include_territories
  = Ok (if decide (kept = []) then empty_frame
        else mkDF kept
               (map (λ r, map (projected_cell (columns d) r) kept)
                  (filter (λ r, domestic_row (columns d) include_territories
                                  (domestic_signal (columns d)) r
                                ∧ field (columns d) col r = Str target_code)
                     (rows chunk)))).
Proof.
  cbv zeta. unfold process_chunk. cbv zeta.
  pose proof (standardize_columns_labels_settled chunk) as Hs.
  pose proof (standardize_columns_twice chunk) as Hd.
  rewrite <- (standardize_columns_rows chunk).
  revert Hs Hd. generalize (standardize_columns chunk). intros d Hs Hd Hnd Hcol.
  pose proof (filter_domestic_filter d include_territories) as H1.
  cbv zeta in H1. rewrite Hd in H1. rewrite (H1 Hnd), bind_Ok. clear H1.
  match goal with |- context [keep_aa (mkDF _ ?rs) _] =>
    pose proof (keep_aa_column (mkDF (columns d) rs) use_marketing col) as H2;
    cbv zeta in H2; rewrite (settled_fixed_frame _ _ Hs) in H2;
    cbn [columns rows] in H2; rewrite (H2 Hnd Hcol), bind_Ok; clear H2
  end.
  match goal with |- context [select_output_cols (mkDF _ ?rs)] =>
    pose proof (select_output_cols_layout (mkDF (columns d) rs)) as H3;
    cbv zeta in H3; rewrite (settled_fixed_frame _ _ Hs) in H3;
    cbn [columns rows] in H3; rewrite (H3 Hnd); clear H3
  end.
  rewrite list_filter_filter. do 2 f_equal.
  case_decide; [done|]. do 2 f_equal. apply list_filter_iff. tauto.
Qed.

Lemma process_chunk_selects_witness :
  process_chunk scenario_A false true
  = Ok (mkDF ["FL_DATE"; "OP_UNIQUE_CARRIER"; "ORIGIN"; "DEST"]
             [ [Str "2023-01-01"; Str "AA"; Str "DFW"; Str "LGA"] ]).
Proof.
  rewrite (process_chunk_selects scenario_A false true "OP_UNIQUE_CARRIER").
  - vm_compute. reflexivity.
  - apply (bool_decide_unpack _). vm_compute. exact I.
  - vm_compute. reflexivity.
Defined.

(** ** The projection *)

Lemma OUTPUT_COLS_canonical : ∀ c, c ∈ OUTPUT_COLS → c ∈ CANON_MAP.*1.
Proof. apply Forall_forall. apply (bool_decide_unpack _). vm_compute. exact I. Qed.

Lemma kept_sublist (cols : list string) : kept_labels cols `sublist_of` OUTPUT_COLS.
Proof. apply list_filter_sublist. Qed.

Lemma positions_from_length (i : nat) (c : string) (cols : list string) :
  length (positions_from i c cols) = occurrences c cols.
Proof.
  unfold occurrences. revert i. induction cols as [|c' cols IH]; intros i; [done|].
  cbn [positions_from]. case_decide as E.
  - rewrite filter_cons_True by done. cbn [length]. by rewrite IH.
  - rewrite filter_cons_False by done. apply IH.
Qed.

Lemma labelled_labels (cols : list string) (c : string) :
  (labelled cols c).*1 = replicate (occurrences c cols) c.
Proof.
  unfold labelled. rewrite <- (positions_from_length 0).
  induction (positions_from 0 c cols) as [|i ps IH]; [done|].
  cbn [map length replicate]. rewrite fmap_cons. by rewrite IH.
Qed.

Lemma fmap_flat_map {A B C : Type} (g : B → C) (f : A → list B) (l : list A) :
  g <$> flat_map f l = flat_map (λ a, g <$> f a) l.
Proof. induction l as [|a l IH]; [done|]. cbn [flat_map]. by rewrite fmap_app, IH. Qed.

Lemma flat_map_ext_elem {A B : Type} (f g : A → list B) (l : list A) :
  (∀ a, a ∈ l → f a = g a) → flat_map f l = flat_map g l.
Proof.
  induction l as [|a l IH]; intros H; [done|]. cbn [flat_map].
  rewrite (H a) by (by left). by rewrite IH by (intros; apply H; by right).
Qed.

Lemma flat_map_filter_nil {A B : Type} (b : A → bool) (f : A → list B) (l : list A) :
  (∀ a, b a = false → f a = []) → flat_map f (List.filter b l) = flat_map f l.
Proof.
  intros H. induction l as [|a l IH]; [done|]. cbn [List.filter flat_map].
  destruct (b a) eqn:E; cbn [flat_map]; rewrite IH; [done|].
  by rewrite (H a E).
Qed.

(** The labels of the kept columns: each kept label as often as the frame
    carries it. *)
Lemma kept_columns_blocks (cols : list string) :
  (kept_columns cols).*1
  = flat_map (λ c, replicate (occurrences c cols) c) (kept_labels cols).
Proof.
  unfold kept_columns. rewrite fmap_flat_map. apply flat_map_ext.
  intros c. apply labelled_labels.
Qed.

Lemma kept_columns_labels (cols : list string) :
  (kept_columns cols).*1 = flat_map (λ c, replicate (occurrences c cols) c) OUTPUT_COLS.
Proof.
  rewrite kept_columns_blocks. unfold kept_labels. apply flat_map_filter_nil.
  intros c Hc%bool_decide_eq_false.
  by rewrite <- labelled_labels; unfold labelled; rewrite positions_from_absent.
Qed.

Lemma elem_of_kept_columns (cols : list string) (c : string) :
  c ∈ (kept_columns cols).*1 ↔ c ∈ kept_labels cols.
Proof.
  unfold kept_columns. rewrite list_elem_of_fmap. split.
  - intros (p & -> & Hp). apply list_elem_of_In, in_flat_map in Hp as (c' & Hc' & Hp).
    apply list_elem_of_In in Hc', Hp. by rewrite (labelled_label _ _ _ Hp).
  - intros Hc. pose proof Hc as [_ Hin]%elem_of_kept_labels.
    apply labelled_elem in Hin. destruct (labelled cols c) as [|p ps] eqn:E; [done|].
    assert (p ∈ labelled cols c) as Hp by (rewrite E; by left).
    exists p. split; [symmetry; by apply labelled_label in Hp|].
    apply list_elem_of_In, in_flat_map. exists c. split; by apply list_elem_of_In.
Qed.

Lemma kept_columns_nonempty (cols : list string) :
  kept_labels cols ≠ [] → (kept_columns cols).*1 ≠ [].
Proof.
  intros Hne E. destruct (kept_labels cols) as [|c0 k] eqn:Ek; [done|].
  assert (c0 ∈ (kept_columns cols).*1) as H
    by (apply elem_of_kept_columns; rewrite Ek; by left).
  rewrite E in H. inversion H.
Qed.

(** X12. The projection never raises.  The labels of its result are those
    of [OUTPUT_COLS], in that order, each as often as the renamed input
    carries it (so a label that the renamed input repeats is repeated in
    the result, and a label it lacks is left out); every row has one cell
    per label; and the result has either as many rows as the input or
    neither columns nor rows. *)
Theorem select_output_cols_shape (df : DataFrame) :
  ∃ out, select_output_cols df = Ok out
    ∧ columns out
      = flat_map (λ c, replicate (occurrences c (columns (standardize_columns df))) c)
                 OUTPUT_COLS
    ∧ (∀ c, c ∈ columns out ↔ c ∈ OUTPUT_COLS ∧ c ∈ columns (standardize_columns df))
    ∧ Forall (λ r, length r = length (columns out)) (rows out)
    ∧ (length (rows out) = length (rows df) ∨ out = empty_frame).
Proof.
  rewrite select_output_cols_form. cbv zeta.
  rewrite <- (standardize_columns_rows df).
  generalize (standardize_columns df). intros d.
  pose proof (kept_columns_labels (columns d)) as Hlab.
  pose proof (elem_of_kept_columns (columns d)) as Hin.
  pose proof (elem_of_kept_labels (columns d)) as Hkept.
  destruct (kept_labels (columns d)) as [|c0 kept] eqn:Ek.
  - assert (kept_columns (columns d) = []) as E0
      by (unfold kept_columns; by rewrite Ek).
    eexists. split; [done|]. cbn [columns rows empty_frame].
    split_and!; [by rewrite <- Hlab, E0| |done|by right].
    intros c. by rewrite <- Hkept, <- Hin, E0.
  - eexists. split; [done|]. cbn [columns rows].
    split_and!; [exact Hlab| | |left; by rewrite length_map].
    + intros c. by rewrite Hin, Hkept.
    + apply Forall_fmap, Forall_true. intros r.
      change (length (project (columns d) r) = length (kept_columns (columns d)).*1).
      unfold project. generalize (kept_columns (columns d)). intros L.
      by rewrite length_map, length_fmap.
Qed.


Lemma select_output_cols_shape_witness :
  ∃ out, select_output_cols (mkDF ["FL_DATE"; "fl_date"; "OP_UNIQUE_CARRIER"]
                                  [ [Str "2023-01-01"; Str "2023-01-02"; Str "AA"] ])
         = Ok out
    ∧ columns out = ["FL_DATE"; "FL_DATE"; "OP_UNIQUE_CARRIER"].
Proof.
  destruct (select_output_cols_shape
              (mkDF ["FL_DATE"; "fl_date"; "OP_UNIQUE_CARRIER"]
                    [ [Str "2023-01-01"; Str "2023-01-02"; Str "AA"] ]))
    as (out & E & Hcols & _).
  exists out. split; [exact E|]. rewrite Hcols. vm_compute. reflexivity.
Defined.

Lemma apply_casts_idemp (cs : list string) (c : string) (v : value) :
  apply_casts cs c (apply_casts cs c v) = apply_casts cs c v.
Proof.
  rewrite !apply_casts_elem. case_bool_decide; [apply astype_string_idemp|done].
Qed.

Lemma kept_labels_again (cols : list string) :
  kept_labels (kept_columns cols).*1 = kept_labels cols.
Proof.
  unfold kept_labels. apply List.filter_ext_in. intros c Hc%list_elem_of_In.
  apply bool_decide_ext. rewrite elem_of_kept_columns, elem_of_kept_labels. tauto.
Qed.

Lemma positions_from_app (i : nat) (c : string) (l1 l2 : list string) :
  positions_from i c (l1 ++ l2)
  = positions_from i c l1 ++ positions_from (i + length l1) c l2.
Proof.
  revert i. induction l1 as [|x l1 IH]; intros i; cbn [app positions_from length].
  - by rewrite Nat.add_0_r.
  - rewrite IH. replace (S i + length l1)%nat with (i + S (length l1))%nat by lia.
    by case_decide.
Qed.

Lemma positions_from_replicate (i : nat) (c : string) (m : nat) :
  positions_from i c (replicate m c) = seq i m.
Proof.
  revert i. induction m as [|m IH]; intros i; [done|].
  cbn [replicate positions_from seq]. rewrite decide_True by done. by rewrite IH.
Qed.

Lemma zip_replicate_seq (c : string) (i m : nat) :
  zip (replicate m c) (seq i m) = map (pair c) (seq i m).
Proof.
  revert i. induction m as [|m IH]; intros i; [done|].
  cbn [replicate seq zip_with map]. by rewrite IH.
Qed.

(** In a list of blocks of equal labels, the positions of the labels, block
    by block, are the positions of the list. *)
Lemma blocks_positions (n : string → nat) (K : list string) (s : nat) :
  NoDup K →
  flat_map (λ c, map (pair c)
                   (positions_from s c (flat_map (λ c, replicate (n c) c) K))) K
  = zip (flat_map (λ c, replicate (n c) c) K)
        (seq s (length (flat_map (λ c, replicate (n c) c) K))).
Proof.
  revert s. induction K as [|c K IH]; intros s Hnd; [done|].
  apply NoDup_cons in Hnd as [Hc Hnd]. cbn [flat_map].
  generalize (IH (s + n c)%nat Hnd). clear IH.
  assert (∀ x, x ∈ flat_map (λ c, replicate (n c) c) K → x ∈ K) as HX.
  { intros x (c' & Hc' & Hx)%list_elem_of_In%in_flat_map.
    apply list_elem_of_In, elem_of_replicate in Hx as [-> _]. by apply list_elem_of_In. }
  revert HX. generalize (flat_map (λ c, replicate (n c) c) K). intros X HX IH.
  rewrite positions_from_app, positions_from_replicate, length_replicate.
  rewrite (positions_from_absent _ c X) by (intros H; by apply Hc, HX).
  rewrite app_nil_r, length_app, length_replicate, seq_app.
  rewrite zip_with_app by (by rewrite length_replicate, length_seq).
  rewrite zip_replicate_seq. f_equal. rewrite <- IH.
  apply flat_map_ext_elem. intros c' Hc'. f_equal.
  rewrite positions_from_app, length_replicate.
  rewrite (positions_from_absent _ c' (replicate (n c) c)); [done|].
  intros [-> _]%elem_of_replicate. done.
Qed.

(** The kept columns of a frame that the projection has returned are all
    its columns, in their order. *)
Lemma kept_columns_again (cols : list string) :
  kept_columns (kept_columns cols).*1
  = zip (kept_columns cols).*1 (seq 0 (length (kept_columns cols))).
Proof.
  unfold kept_columns at 1. rewrite kept_labels_again.
  rewrite <- (length_fmap fst (kept_columns cols)), kept_columns_blocks.
  apply (blocks_positions (λ c, occurrences c cols) (kept_labels cols) 0), kept_NoDup.
Qed.

(** Reading a row laid out along [L] at the positions of [L]. *)
Lemma project_zip (F : string → value → value) (h : string * nat → value)
    (L : list (string * nat)) (pre : list value) :
  map (λ p, F p.1 (cell p.2 (pre ++ map h L))) (zip L.*1 (seq (length pre) (length L)))
  = map (λ q, F q.1 (h q)) L.
Proof.
  revert pre. induction L as [|q L IH]; intros pre; [done|].
  change (map (λ p, F p.1 (cell p.2 (pre ++ map h (q :: L))))
            (zip (q :: L).*1 (seq (length pre) (length (q :: L)))))
    with (F q.1 (cell (length pre) (pre ++ h q :: map h L))
          :: map (λ p, F p.1 (cell p.2 (pre ++ h q :: map h L)))
               (zip L.*1 (seq (S (length pre)) (length L)))).
  change (map (λ q0, F q0.1 (h q0)) (q :: L))
    with (F q.1 (h q) :: map (λ q0, F q0.1 (h q0)) L).
  f_equal.
  - unfold cell. by rewrite list_lookup_middle.

  - specialize (IH (pre ++ [h q])).
    rewrite length_app, Nat.add_1_r, <- app_assoc in IH. exact IH.
Qed.

(** X13. The projection is idempotent: applied to a frame it has returned,
    with or without repeated labels, it returns that frame again. *)
Theorem select_output_cols_idempotent (df out : DataFrame) :
  select_output_cols df = Ok out → select_output_cols out = Ok out.
Proof.
  rewrite select_output_cols_form. cbv zeta.
  generalize (columns (standardize_columns df)) (rows (standardize_columns df)).
  intros cols rs.
  destruct (kept_labels cols) as [|c0 kept] eqn:Ek; intros [= <-].
  { vm_compute. reflexivity. }
  assert (settled CANON_MAP (kept_columns cols).*1) as Hs.
  { apply canonical_settled;
      [apply CANON_MAP_self_first|apply CANON_MAP_keys_apart|].
    intros c [Hc _]%elem_of_kept_columns%elem_of_kept_labels.
    by apply OUTPUT_COLS_canonical. }
  rewrite select_output_cols_form. cbv zeta.
  rewrite (settled_fixed_frame _ _ Hs). cbn [columns rows].
  rewrite kept_labels_again, Ek, kept_columns_again.
  f_equal. f_equal.
  - apply fst_zip. by rewrite length_seq, length_fmap.
  - rewrite map_map. apply map_ext. intros r.
    unfold project at 1. rewrite kept_columns_again. unfold project.
    etransitivity;
      [exact (project_zip (apply_casts STRING_COLS)
                (λ p, apply_casts STRING_COLS p.1 (cell p.2 r)) (kept_columns cols) [])|].
    apply map_ext. intros p. apply apply_casts_idemp.

Qed.

Lemma select_output_cols_idempotent_witness :
  select_output_cols (mkDF ["FL_DATE"; "FL_DATE"; "DEP_TIME"]
                           [ [Str "2023-01-01"; Str "2023-01-02"; NA] ])
  = Ok (mkDF ["FL_DATE"; "FL_DATE"; "DEP_TIME"]
             [ [Str "2023-01-01"; Str "2023-01-02"; NA] ]).
Proof.
  apply (select_output_cols_idempotent
           (mkDF ["DepTime"; "Tail_Number"; "FL_DATE"; "fl_date"]
                 [ [NaN; Str "N1"; Str "2023-01-01"; Str "2023-01-02"] ])).

  vm_compute. reflexivity.
Defined.

(** ** Chunking *)

(** A frame built by a plan that counts as empty has no rows. *)
Lemma run_plan_empty (cols : list string) (um it : bool) (p : plan)
    (rs : list (list value)) :
  chunk_plan cols um it = Ok p →
  empty (run_plan p rs) = true → rows (run_plan p rs) = [].
Proof.
  unfold chunk_plan.
  destruct (domestic_keep cols it) as [b1|]; [|done].
  destruct (carrier_keep cols um) as [b2|]; [|done].
  rewrite !bind_Ok. pose proof (kept_columns_nonempty cols) as Hne. revert Hne.
  destruct (kept_labels cols) as [|c0 kept]; intros Hne [= <-]; unfold run_plan, empty;
    cbn [plan_labels plan_keep plan_project columns rows].
  - by rewrite list_filter_false.
  - destruct ((kept_columns cols).*1); [by destruct Hne|].
    by destruct (map (project cols) (List.filter _ rs)).
Qed.

Lemma mapM_process_plan (cols : list string) (um it : bool) (p : plan)
    (chunks : list (list (list value))) :
  chunk_plan (map (renamed cols) cols) um it = Ok p →
  mapM (λ c, process_chunk c um it) (map (mkDF cols) chunks)
  = Ok (map (run_plan p) chunks).
Proof.
  intros Hp. induction chunks as [|rs chunks IH]; [done|].
  cbn [map]. rewrite mapM_cons, process_chunk_plan, columns_standardize_frame, Hp.
  cbn [rows]. by rewrite !bind_Ok, IH, bind_Ok.
Qed.

Lemma rows_of_nonempty_plans (cols : list string) (um it : bool) (p : plan)
    (chunks : list (list (list value))) :
  chunk_plan cols um it = Ok p →
  flat_map rows (List.filter nonempty (map (run_plan p) chunks))
  = map (plan_project p) (List.filter (plan_keep p) (List.concat chunks)).
Proof.
  intros Hp. induction chunks as [|rs chunks IH]; [done|].
  cbn [map List.filter List.concat]. rewrite List.filter_app, map_app, <- IH.
  unfold nonempty at 1. destruct (empty (run_plan p rs)) eqn:E; cbn [negb flat_map].
  - pose proof (run_plan_empty _ _ _ _ rs Hp E) as Hrows.
    unfold run_plan in Hrows. cbn [rows] in Hrows. by rewrite Hrows.
  - done.
Qed.

Lemma parts_labels (p : plan) (chunks : list (list (list value))) (part : DataFrame) :
  part ∈ List.filter nonempty (map (run_plan p) chunks) → columns part = plan_labels p.
Proof.
  intros H%list_elem_of_In. apply List.filter_In in H as [H _].
  apply list_elem_of_In, list_elem_of_fmap in H as (rs & -> & _). done.
Qed.

(** X14. Chunking does not change what is selected: for a file read as one
    or more chunks under the same labels, the loop over the chunks and the
    one pass over the whole file either raise the same exception, or yield
    the same rows in the same order, under the same labels. *)
Theorem chunking_keeps_rows (cols : list string) (chunks : list (list (list value)))
    (use_marketing include_territories : bool) :
  chunks ≠ [] →
  selected_rows (chunk_loop (map (mkDF cols) chunks) use_marketing include_territories [])
  = selected_rows
      (chunk_loop [mkDF cols (List.concat chunks)] use_marketing include_territories [])
  ∧ ∀ parts1 parts2 p1 p2,
      chunk_loop (map (mkDF cols) chunks) use_marketing include_territories [] = Ok parts1 →
      chunk_loop [mkDF cols (List.concat chunks)] use_marketing include_territories []
      = Ok parts2 →
      p1 ∈ parts1 → p2 ∈ parts2 → columns p1 = columns p2.
Proof.
  intros Hne.
  destruct (chunk_plan (map (renamed cols) cols) use_marketing include_territories)
    as [p|e] eqn:Hp.
  - assert (chunk_loop (map (mkDF cols) chunks) use_marketing include_territories []
            = Ok (List.filter nonempty (map (run_plan p) chunks))) as E1.
    { apply chunk_loop_Ok. eexists. split; [by apply mapM_process_plan|done]. }
    assert (chunk_loop [mkDF cols (List.concat chunks)] use_marketing include_territories []
            = Ok (List.filter nonempty (map (run_plan p) [List.concat chunks]))) as E2.
    { apply chunk_loop_Ok. eexists.
      split; [exact (mapM_process_plan cols _ _ p [List.concat chunks] Hp)|done]. }
    rewrite E1, E2. split.
    + cbn [selected_rows]. rewrite !(rows_of_nonempty_plans _ _ _ _ _ Hp).
      cbn [List.concat]. by rewrite app_nil_r.
    + intros parts1 parts2 p1 p2 [= <-] [= <-] H1 H2.
      transitivity (plan_labels p);
        [exact (parts_labels _ _ _ H1)
        |symmetry; exact (parts_labels _ [List.concat chunks] _ H2)].
  - assert (∀ rs, process_chunk (mkDF cols rs) use_marketing include_territories = Raise e)
      as Hraise.
    { intros rs. by rewrite process_chunk_plan, columns_standardize_frame, Hp. }
    destruct chunks as [|rs chunks]; [done|].
    cbn [map]. rewrite !chunk_loop_cons, !Hraise. split; [done|]. by intros.
Qed.

Lemma chunking_keeps_rows_witness :
  selected_rows
    (chunk_loop [ mkDF ["Operating_Airline"; "Origin"] [ [Str "AA"; Str "DFW"]; [Str "UA"; Str "ORD"] ];
                  mkDF ["Operating_Airline"; "Origin"] [ [Str "UA"; Str "LGA"] ];
                  mkDF ["Operating_Airline"; "Origin"] [ [Str "AA"; Str "JFK"] ] ]
       false true [])
  = Ok [ [Str "AA"; Str "DFW"]; [Str "AA"; Str "JFK"] ].
Proof.
  etransitivity.
  - exact (proj1 (chunking_keeps_rows ["Operating_Airline"; "Origin"]
                    [ [ [Str "AA"; Str "DFW"]; [Str "UA"; Str "ORD"] ];
                      [ [Str "UA"; Str "LGA"] ];
                      [ [Str "AA"; Str "JFK"] ] ] false true ltac:(discriminate))).
  - vm_compute. reflexivity.
Defined.

(** ** Downloads *)

Lemma download_attempts_spec (get : nat → option (list (list ascii))) (retries : Z)
    (attempts : list nat) :
  let res := download_attempts get retries attempts in
  (∀ b, res.1 = Some b ↔
        ∃ pre k post chunks, attempts = pre ++ k :: post
          ∧ (∀ j, j ∈ pre → get j = None)
          ∧ get k = Some chunks ∧ b = body chunks)
  ∧ (res.1 = None ↔ ∀ j, j ∈ attempts → get j = None).
Proof.
  cbv zeta. induction attempts as [|a attempts [IH1 IH2]]; cbn [download_attempts].
  - split.
    + intros b. split; [done|]. intros (pre & k & post & chunks & E & _). by destruct pre.
    + split; [|done]. intros _ j Hj. inversion Hj.
  - destruct (get a) as [chunks|] eqn:Ea; cbn [fst].
    + split.
      * intros b. split.
        -- intros [= <-]. exists [], a, attempts, chunks. split_and!; [done| |done..].
           intros j Hj. inversion Hj.
        -- intros (pre & k & post & chunks' & E & Hpre & Hk & ->).
           destruct pre as [|a' pre]; cbn [app] in E; injection E as E1 E2; subst.
           ++ congruence.
           ++ rewrite Hpre in Ea; [done|by left].
      * split; [done|]. intros H. rewrite H in Ea; [done|by left].
    + split.
      * intros b. rewrite IH1. split.
        -- intros (pre & k & post & chunks & -> & Hpre & Hk & ->).
           exists (a :: pre), k, post, chunks. split_and!; [done| |done..].
           intros j [->|Hj]%elem_of_cons; [done|by apply Hpre].
        -- intros (pre & k & post & chunks & E & Hpre & Hk & ->).
           destruct pre as [|a' pre]; cbn [app] in E; injection E as E1 E2; subst.
           ++ congruence.
           ++ exists pre, k, post, chunks. split_and!; [done| |done..].
              intros j Hj. apply Hpre. by right.
      * rewrite IH2. split.
        -- intros H j [->|Hj]%elem_of_cons; [done|by apply H].
        -- intros H j Hj. apply H. by right.
Qed.

Lemma download_attempts_events (get : nat → option (list (list ascii))) (retries : Z)
    (start n : nat) :
  (Z.of_nat (start + n) ≤ Z.max retries 0 + 1)%Z →
  let tr := (download_attempts get retries (seq start n)).2 in
  (length (List.filter is_get tr) ≤ n)%nat
  ∧ (n ≠ 0 →
     (Z.of_nat (start + n) = Z.max retries 0 + 1)%Z →
     S (length (List.filter is_sleep tr)) = length (List.filter is_get tr))
  ∧ ((Z.of_nat (start + n) < Z.max retries 0 + 1)%Z →
     (download_attempts get retries (seq start n)).1 = None →
     length (List.filter is_sleep tr) = length (List.filter is_get tr)).
Proof.
  cbv zeta. revert start. induction n as [|n IH]; intros start Hle.
  - cbn. split_and!; [lia|done|done].
  - cbn [seq download_attempts].
    destruct (get start) as [chunks|] eqn:E.
    + cbn. split_and!; [lia|done|done].
    + assert (Z.of_nat (S start + n) ≤ Z.max retries 0 + 1)%Z as Hle' by lia.
      destruct (IH (S start) Hle') as (IHa & IHb & IHc).
      cbn [snd fst]. case_bool_decide as Hlt; cbn [app List.filter is_get is_sleep length].
      * split_and!.
        -- lia.
        -- intros _ Hend. destruct n as [|n'].
           { exfalso. lia. }
           rewrite <- IHb; [done|done|lia].
        -- intros Hend Hnone. rewrite IHc; [done|lia|done].
      * split_and!.
        -- lia.
        -- intros _ Hend. destruct n as [|n']; [done|]. exfalso. lia.
        -- intros Hend. exfalso. lia.
Qed.

Lemma seq_split (start n : nat) (pre post : list nat) (k : nat) :
  seq start n = pre ++ k :: post →
  pre = seq start (length pre) ∧ k = (start + length pre)%nat.
Proof.
  revert start n. induction pre as [|a pre IH]; intros start n E.
  - destruct n as [|n]; [done|]. cbn in E. injection E as -> _. split; [done|cbn; lia].
  - destruct n as [|n]; [done|]. cbn [seq app] in E. injection E as <- E.
    destruct (IH _ _ E) as [Epre ->]. split; [|cbn; lia].
    cbn [length seq]. by rewrite <- Epre.
Qed.

(** X17. [download_zip] returns the body of the first attempt, among the
    attempts 1 to [retries], whose request does not raise, and [None] when
    all of them raise.  When [retries] is not positive it makes no request,
    does not sleep and returns [None]; when [retries] is positive it makes
    at most [retries] requests and, if every attempt raises, sleeps once
    less than it requests, that is between attempts only.  An empty chunk
    adds nothing to the body. *)
Theorem download_zip_retries (get : nat → option (list (list ascii))) (retries : Z) :
  let res := download_zip get retries in
  (∀ b, res.1 = Some b ↔
        ∃ k chunks, (1 ≤ k)%nat ∧ (Z.of_nat k ≤ retries)%Z
          ∧ (∀ j, (1 ≤ j < k)%nat → get j = None)
          ∧ get k = Some chunks ∧ b = body chunks)
  ∧ (res.1 = None ↔ ∀ j, (1 ≤ j)%nat → (Z.of_nat j ≤ retries)%Z → get j = None)
  ∧ (Z.of_nat (length (List.filter is_get res.2)) ≤ Z.max retries 0)%Z
  ∧ (res.1 = None → (0 < retries)%Z →
     S (length (List.filter is_sleep res.2)) = length (List.filter is_get res.2))
  ∧ (∀ c1 c2, body (c1 ++ [] :: c2) = body (c1 ++ c2))
  ∧ ((retries ≤ 0)%Z → res = (None, [])).
Proof.
  cbv zeta. unfold download_zip.
  destruct (download_attempts_spec get retries (seq 1 (Z.to_nat retries))) as [H1 H2].
  cbv zeta in H1, H2. split_and!.
  - intros b. rewrite H1. split.
    + intros (pre & k & post & chunks & E & Hpre & Hk & ->).
      assert (k ∈ seq 1 (Z.to_nat retries)) as Hkin
        by (rewrite E; apply elem_of_app; right; by left).
      apply elem_of_seq in Hkin. exists k, chunks. split_and!; [lia|lia| |done..].
      intros j Hj. apply Hpre.
      destruct (seq_split _ _ _ _ _ E) as [Epre ->].
      rewrite Epre. apply elem_of_seq. lia.
    + intros (k & chunks & Hk1 & Hk2 & Hpre & Hk & ->).
      exists (seq 1 (k - 1)), k, (seq (S k) (Z.to_nat retries - k)), chunks.
      split_and!; [|intros j Hj%elem_of_seq; apply Hpre; lia|done..].
      assert (Z.to_nat retries = (k - 1) + S (Z.to_nat retries - k))%nat as Hn by lia.
      rewrite Hn at 1. rewrite seq_app. f_equal. cbn [seq].
      by replace (1 + (k - 1))%nat with k by lia.
  - rewrite H2. split.
    + intros H j Hj1 Hj2. apply H, elem_of_seq. lia.
    + intros H j Hj%elem_of_seq. apply H; lia.
  - destruct (download_attempts_events get retries 1 (Z.to_nat retries)) as (Ha & _); lia.
  - intros Hnone Hpos.
    destruct (download_attempts_events get retries 1 (Z.to_nat retries)) as (_ & Hb & _);
      [lia|]. apply Hb; lia.
  - intros c1 c2. unfold body. by rewrite !List.filter_app.
  - intros Hle. by replace (Z.to_nat retries) with 0%nat by lia.
Qed.

Lemma download_zip_retries_witness :
  (download_zip (λ k, if decide (k = 3) then Some [ ["P"; "K"]%char; []; ["!"]%char ] else None) 3).1
  = Some ["P"; "K"; "!"]%char.
Proof.
  apply (proj1 (download_zip_retries _ 3)).
  exists 3, [ ["P"; "K"]%char; []; ["!"]%char ].
  split_and!; [lia|lia| |done|done].
  intros j Hj. case_decide; [lia|done].
Defined.

(** ** Picking a column by candidates *)

Lemma same_upper_spec (a b : string) : same_upper a b = true ↔ PyStr.upper a = PyStr.upper b.
Proof. apply bool_decide_eq_true. Qed.

Lemma find_first {A : Type} (f : A → bool) (l : list A) (x : A) :
  List.find f l = Some x ↔
  ∃ l1 l2, l = l1 ++ x :: l2 ∧ f x = true ∧ ∀ y, y ∈ l1 → f y = false.
Proof.
  induction l as [|a l IH]; cbn [List.find].
  - split; [done|]. intros (l1 & l2 & E & _). by destruct l1.
  - destruct (f a) eqn:Ea.
    + split.
      * intros [= <-]. exists [], l. split_and!; [done..|]. intros y Hy. inversion Hy.
      * intros (l1 & l2 & E & Hx & Hl1).
        destruct l1 as [|a' l1]; cbn [app] in E; injection E as E1 E2; subst; [done|].
        rewrite Hl1 in Ea; [done|by left].
    + rewrite IH. split.
      * intros (l1 & l2 & -> & Hx & Hl1). exists (a :: l1), l2. split_and!; [done..|].
        intros y [->|Hy]%elem_of_cons; [done|by apply Hl1].
      * intros (l1 & l2 & E & Hx & Hl1).
        destruct l1 as [|a' l1]; cbn [app] in E; injection E as E1 E2; subst; [congruence|].
        exists l1, l2. split_and!; [done..|]. intros y Hy. apply Hl1. by right.
Qed.

Lemma find_none {A : Type} (f : A → bool) (l : list A) :
  List.find f l = None ↔ ∀ y, y ∈ l → f y = false.
Proof.
  induction l as [|a l IH]; cbn [List.find].
  - split; [|done]. intros _ y Hy. inversion Hy.
  - destruct (f a) eqn:Ea.
    + split; [done|]. intros H. rewrite H in Ea; [done|by left].
    + rewrite IH. split.
      * intros H y [->|Hy]%elem_of_cons; [done|by apply H].
      * intros H y Hy. apply H. by right.
Qed.

Lemma upper_elem (columns : list string) (cand : string) :
  PyStr.upper cand ∈ map PyStr.upper columns ↔
  ∃ x, x ∈ columns ∧ PyStr.upper x = PyStr.upper cand.
Proof.
  rewrite list_elem_of_fmap. split; intros (x & ? & ?); exists x; by split.
Qed.

Lemma pick_column_spec (columns candidates : list string) :
  (∀ c, _pick_column columns candidates = Some c ↔ picks columns candidates c)
  ∧ (_pick_column columns candidates = None ↔
     ∀ cand x, cand ∈ candidates → x ∈ columns → PyStr.upper x ≠ PyStr.upper cand).
Proof.
  induction candidates as [|cand rest [IH1 IH2]]; cbn [_pick_column].
  - split.
    + intros c. split; [done|]. intros (pre & cd & post & E & _). by destruct pre.
    + split; [|done]. intros _ cd x Hcd. inversion Hcd.
  - case_bool_decide as Hin.
    + apply upper_elem in Hin as (x0 & Hx0 & Hux0).
      destruct (List.find (λ c, same_upper c cand) columns) as [c0|] eqn:Ef.
      2:{ exfalso. rewrite find_none in Ef. specialize (Ef x0 Hx0).
          by rewrite <- not_true_iff_false, same_upper_spec in Ef. }
      pose proof Ef as (l1 & l2 & Ecols & Hc0%same_upper_spec & Hl1)%find_first.
      split.
      * intros c. split.
        -- intros [= <-]. exists [], cand, rest. split_and!; [done| |].
           { intros cd x Hcd. inversion Hcd. }
           exists l1, l2. split_and!; [done..|].
           intros x Hx. specialize (Hl1 x Hx).
           by rewrite <- not_true_iff_false, same_upper_spec in Hl1.
        -- intros (pre & cd & post & E & Hpre & m1 & m2 & Em & Hc & Hm1).
           destruct pre as [|p pre]; cbn [app] in E; injection E as E1 E2.
           ++ subst cd.
              assert (List.find (λ c, same_upper c cand) columns = Some c) as Ef'.
              { apply find_first. exists m1, m2. split_and!; [done|by apply same_upper_spec|].
                intros y Hy. apply not_true_iff_false. rewrite same_upper_spec.
                by apply Hm1. }
              congruence.
           ++ subst p. exfalso. apply (Hpre cand x0); [by left|done|done].
      * split; [done|]. intros H. exfalso. apply (H cand x0); [by left|done|done].
    + assert (∀ x, x ∈ columns → PyStr.upper x ≠ PyStr.upper cand) as Hno.
      { intros x Hx Hu. apply Hin, upper_elem. by exists x. }
      split.
      * intros c. rewrite IH1. split.
        -- intros (pre & cd & post & -> & Hpre & Hrest).
           exists (cand :: pre), cd, post. split_and!; [done| |done].
           intros cd' x [->|Hcd]%elem_of_cons Hx; [by apply Hno|by apply Hpre].
        -- intros (pre & cd & post & E & Hpre & m1 & m2 & Em & Hc & Hm1).
           destruct pre as [|p pre]; cbn [app] in E; injection E as E1 E2; subst.
           ++ exfalso. apply (Hno c); [|done]. apply elem_of_app. right. by left.
           ++ exists pre, cd, post. split_and!; [done| |by exists m1, m2].
              intros cd' x Hcd. apply Hpre. by right.
      * rewrite IH2. split.
        -- intros H cd x [->|Hcd]%elem_of_cons Hx; [by apply Hno|by apply H].
        -- intros H cd x Hcd. apply H. by right.
Qed.

(** X18. [_pick_column] returns a name exactly as it is spelled in the
    columns: the first column that equals, case aside, the first candidate
    matched by some column; it returns [None] exactly when no candidate
    equals a column, case aside. *)
Theorem _pick_column_first (columns candidates : list string) :
  (∀ c, _pick_column columns candidates = Some c ↔ picks columns candidates c)
  ∧ (_pick_column columns candidates = None ↔
     ∀ cand x, cand ∈ candidates → x ∈ columns → PyStr.upper x ≠ PyStr.upper cand).
Proof. apply pick_column_spec. Qed.

Lemma _pick_column_first_witness :
  _pick_column ["Origin"; "op_unique_carrier"; "Carrier"]
               ["UNIQUE_CARRIER"; "OP_UNIQUE_CARRIER"; "CARRIER"]
  = Some "op_unique_carrier".
Proof.
  apply (proj1 (_pick_column_first _ _)).
  exists ["UNIQUE_CARRIER"], "OP_UNIQUE_CARRIER", ["CARRIER"]. split_and!; [done| |].
  - intros cand x ->%list_elem_of_singleton Hx. revert x Hx. apply Forall_forall.
    apply (bool_decide_unpack _). vm_compute. exact I.
  - exists ["Origin"], ["Carrier"]. split_and!; [done|vm_compute; reflexivity|].
    intros x ->%list_elem_of_singleton. vm_compute. discriminate.
Defined.

(** ** Filtering by airports *)

Lemma picked_elem (columns candidates : list string) (c : string) :
  _pick_column columns candidates = Some c →
  c ∈ columns
  ∧ ∃ cand, cand ∈ candidates ∧ PyStr.upper c = PyStr.upper cand.
Proof.
  intros H. apply (proj1 (pick_column_spec columns candidates)) in H
    as (pre & cand & post & -> & _ & l1 & l2 & -> & Hu & _).
  split; [apply elem_of_app; right; by left|].
  exists cand. split; [|done]. apply elem_of_app. right. by left.
Qed.

Lemma picked_truthy (columns candidates : list string) :
  Forall (λ cand, PyStr.upper cand ≠ []) candidates →
  truthy (_pick_column columns candidates)
  = bool_decide (is_Some (_pick_column columns candidates)).
Proof.
  intros Hc. destruct (_pick_column columns candidates) as [c|] eqn:E; [|done].
  cbn [truthy]. rewrite (bool_decide_eq_true_2 (is_Some (Some c))) by by eexists.
  apply negb_true_iff, bool_decide_eq_false. intros ->.
  apply picked_elem in E as (_ & cand & Hin & Hu).
  rewrite Forall_forall in Hc. by apply (Hc cand Hin).
Qed.

Lemma candidates_nonempty :
  Forall (λ cand, PyStr.upper cand ≠ []) CARRIER_CANDIDATES
  ∧ Forall (λ cand, PyStr.upper cand ≠ []) ORIGIN_CANDIDATES
  ∧ Forall (λ cand, PyStr.upper cand ≠ []) DEST_CANDIDATES.
Proof. split_and!; apply (bool_decide_unpack _); vm_compute; exact I. Qed.

(** X19. When no carrier column, no origin column or no destination column
    can be picked from the header, [filter_file] raises a [KeyError] that
    lists the columns (the carrier message when the carrier column is the
    one missing, else the origin and destination message), and the output
    file is left as it was: the old output is removed only after the three
    columns have been found. *)
Theorem filter_file_missing_column (prev : option (list line)) (cols : list string)
    (reader : list (list (list value))) (airports : list string) (carrier : string) :
  _pick_column cols CARRIER_CANDIDATES = None
  ∨ _pick_column cols ORIGIN_CANDIDATES = None
  ∨ _pick_column cols DEST_CANDIDATES = None →
  filter_file prev cols reader airports carrier
  = (prev,
     Raise (KeyError (match _pick_column cols CARRIER_CANDIDATES with
                      | None => no_carrier_column
                      | Some _ => no_origin_dest
                      end) cols)).
Proof.
  destruct candidates_nonempty as (Hc & Ho & Hd).
  unfold filter_file. cbv zeta.
  rewrite (picked_truthy cols _ Hc), (picked_truthy cols _ Ho), (picked_truthy cols _ Hd).
  intros H.
  destruct (_pick_column cols CARRIER_CANDIDATES) as [cc|].
  - rewrite (bool_decide_eq_true_2 (is_Some (Some cc))) by by eexists.
    cbn [negb]. destruct H as [E|[E|E]]; [done| |]; rewrite E.
    + by rewrite (bool_decide_eq_false_2 (is_Some None)) by (by intros [? ?]).
    + rewrite (bool_decide_eq_false_2 (is_Some None)) by (by intros [? ?]).
      by rewrite orb_true_r.
  - by rewrite (bool_decide_eq_false_2 (is_Some None)) by (by intros [? ?]).
Qed.

Lemma filter_file_missing_column_witness :
  filter_file (Some [Header ["old"]]) ["Carrier"; "Origin"] [ [ [Str "AA"; Str "DFW"] ] ]
    DEFAULT_AIRPORTS "AA"
  = (Some [Header ["old"]], Raise (KeyError no_origin_dest ["Carrier"; "Origin"])).
Proof.
  rewrite (filter_file_missing_column (Some [Header ["old"]]) ["Carrier"; "Origin"]
             [ [ [Str "AA"; Str "DFW"] ] ] DEFAULT_AIRPORTS "AA").
  - vm_compute. reflexivity.
  - right. right. vm_compute. reflexivity.
Defined.

Lemma mask_and3_map {A : Type} (f g h : A → bool) (l : list A) :
  mask_and (mask_and (map f l) (map g l)) (map h l) = map (λ x, f x && g x && h x) l.
Proof. by rewrite !mask_and_map. Qed.

Lemma written_app (cols : list string) (file : option (list line)) (hw : bool)
    (r1 : list value) (m1 m2 : list (list value)) :
  match m2 with
  | [] => Some (default [] file ++ to_csv (mkDF cols (r1 :: m1)) (negb hw))
  | _ :: _ =>
      Some (default [] (Some (default [] file ++ to_csv (mkDF cols (r1 :: m1)) (negb hw)))
            ++ [] ++ map Data m2)
  end
  = match (r1 :: m1) ++ m2 with
    | [] => file
    | _ :: _ =>
        Some (default [] file ++ (if hw then [] else [Header cols])
              ++ map Data ((r1 :: m1) ++ m2))
    end.
Proof.
  unfold to_csv. cbn [columns rows default from_option id].
  destruct m2 as [|r2 m2], hw; cbn [negb app map];
    rewrite ?app_nil_r, ?map_app, <- ?app_assoc; reflexivity.
Qed.

(** The loop, for a header with distinct labels that has the three columns. *)
Lemma filter_chunks_selects (cols : list string) (cc oc dc : string)
    (airports : list string) (carrier : string)
    (file : option (list line)) (hw : bool) (reader : list (list (list value))) :
  NoDup cols → cc ∈ cols → oc ∈ cols → dc ∈ cols →
  let matches :=
    filter (airport_row cols cc oc dc airports carrier)
      (map (map astype_string) (List.concat reader)) in
  filter_chunks cols cc oc dc (map code_key airports) (PyStr.upper carrier) file hw reader
  = (match matches with
     | [] => file
     | _ => Some (default [] file ++ (if hw then [] else [Header cols]) ++ map Data matches)
     end, Ok tt).
Proof.
  intros Hnd Hcc Hoc Hdc. cbv zeta. revert file hw.
  induction reader as [|rs rest IH]; intros file hw; [done|].
  cbn [filter_chunks List.concat]. rewrite map_app, filter_app.
  generalize (map (map astype_string) rs). clear rs. intros rs.
  rewrite !(getitem_unique (mkDF cols _)) by done. cbn [columns rows].
  rewrite !bind_Ok, !map_map, mask_and3_map.
  unfold loc. cbn [columns rows].
  rewrite (select_rows_map _ (airport_row cols cc oc dc airports carrier)).
  2:{ intros r. unfold airport_row. rewrite !andb_true_iff, !bool_decide_eq_true. tauto. }
  generalize (filter (airport_row cols cc oc dc airports carrier) rs). intros m1.
  rewrite !IH.
  generalize (filter (airport_row cols cc oc dc airports carrier)
                (map (map astype_string) (List.concat rest))). intros m2.
  unfold empty. cbn [columns rows].
  destruct cols as [|c0 cols]; [inversion Hcc|].
  destruct m1 as [|r1 m1]; [done|].
  f_equal. apply written_app.
Qed.

(** X20. For a header with distinct labels from which the three columns are
    picked, [filter_file] succeeds and, whatever the output file held
    before, leaves: no file when no row passes, else the header line with
    all columns of the input followed by the rows that pass, in the order
    of the input and with their cells cast to strings.  A row passes when
    its carrier cell, trimmed and uppercased, is the uppercased carrier and
    its origin and destination cells, trimmed and uppercased, are among the
    trimmed and uppercased airports. *)
Theorem filter_file_selects (prev : option (list line)) (cols : list string)
    (reader : list (list (list value))) (airports : list string) (carrier : string)
    (cc oc dc : string) :
  NoDup cols →
  _pick_column cols CARRIER_CANDIDATES = Some cc →
  _pick_column cols ORIGIN_CANDIDATES = Some oc →
  _pick_column cols DEST_CANDIDATES = Some dc →
  filter_file prev cols reader airports carrier
  = (written cols
       (filter (airport_row cols cc oc dc airports carrier)
          (map (map astype_string) (List.concat reader))),
     Ok tt).
Proof.
  intros Hnd Ec Eo Ed. destruct candidates_nonempty as (Hc & Ho & Hd).
  unfold filter_file. cbv zeta.
  rewrite (picked_truthy cols _ Hc), (picked_truthy cols _ Ho), (picked_truthy cols _ Hd).
  rewrite Ec, Eo, Ed. rewrite !bool_decide_eq_true_2 by by eexists.
  cbn [negb orb default from_option id].
  rewrite filter_chunks_selects;
    [|done|by apply (picked_elem _ _ _ Ec)|by apply (picked_elem _ _ _ Eo)
     |by apply (picked_elem _ _ _ Ed)].
  unfold written. by destruct (filter _ _).
Qed.

Lemma filter_file_selects_witness :
  filter_file (Some [Header ["old"]]) ["Carrier"; "Origin"; "Dest"]
    [ [ [Str " aa "; Str "dfw"; Str "LGA"]; [Str "UA"; Str "DFW"; Str "LGA"] ];
      [ [Str "AA"; Str "DFW"; Str "SEA"] ];
      [ [Str "AA"; NaN; Str "JFK"]; [Str "AA"; Str "JFK"; Str "ORD"] ] ]
    DEFAULT_AIRPORTS "aa"
  = (Some [ Header ["Carrier"; "Origin"; "Dest"];
            Data [Str " aa "; Str "dfw"; Str "LGA"];
            Data [Str "AA"; Str "JFK"; Str "ORD"] ], Ok tt).
Proof.
  rewrite (filter_file_selects _ _ _ _ _ "Carrier" "Origin" "Dest").
  - vm_compute. reflexivity.
  - apply (bool_decide_unpack _). vm_compute. exact I.
  - vm_compute. reflexivity.
  - vm_compute. reflexivity.
  - vm_compute. reflexivity.
Defined.

Lemma filter_chunks_ext (cols : list string) (cc oc dc : string)
    (set set' : list (list PyStr.codepoint)) (ck : list PyStr.codepoint)
    (file : option (list line)) (hw : bool) (reader : list (list (list value))) :
  (∀ k, k ∈ set ↔ k ∈ set') →
  filter_chunks cols cc oc dc set ck file hw reader
  = filter_chunks cols cc oc dc set' ck file hw reader.
Proof.
  intros Hset.
  assert (Hm : ∀ l, map (λ v, bool_decide (cell_key v ∈ set)) l
                    = map (λ v, bool_decide (cell_key v ∈ set')) l).
  { intros l. apply map_ext. intros v. apply bool_decide_ext, Hset. }
  revert file hw. induction reader as [|rs rest IH]; intros file hw; [done|].
  cbn [filter_chunks].
  destruct (getitem _ cc) as [carr|e]; [|done]. rewrite !bind_Ok.
  destruct (getitem _ oc) as [orig|e]; [|done]. rewrite !bind_Ok.
  destruct (getitem _ dc) as [dst|e]; [|done]. rewrite !bind_Ok.
  rewrite !Hm. destruct (empty _); apply IH.
Qed.

(** X21. [filter_file] reads the carrier only through its uppercased form
    and the airports only through the set of their trimmed, uppercased
    codes: two calls whose carriers agree up to case and whose airport
    lists give the same set of codes (whatever the order, the repeats, the
    case and the surrounding white space) end in the same output file and
    the same outcome, for every input, also one that makes the call
    raise. *)
Theorem filter_file_insensitive (prev : option (list line)) (cols : list string)
    (reader : list (list (list value))) (airports airports' : list string)
    (carrier carrier' : string) :
  PyStr.upper carrier = PyStr.upper carrier' →
  (∀ k, k ∈ map code_key airports ↔ k ∈ map code_key airports') →
  filter_file prev cols reader airports carrier
  = filter_file prev cols reader airports' carrier'.
Proof.
  intros Hc Hs. unfold filter_file. cbv zeta. rewrite Hc.
  destruct (negb (truthy (_pick_column cols CARRIER_CANDIDATES))); [done|].
  destruct (negb (truthy (_pick_column cols ORIGIN_CANDIDATES))
            || negb (truthy (_pick_column cols DEST_CANDIDATES))); [done|].
  by apply filter_chunks_ext.
Qed.

Lemma filter_file_insensitive_witness :
  filter_file None ["Carrier"; "Origin"; "Dest"]
    [ [ [Str "AA"; Str "DFW"; Str "LGA"]; [Str "AA"; Str "LGA"; Str "SEA"] ] ]
    [" dfw"; "LGA "; "dfw"] "aa"
  = filter_file None ["Carrier"; "Origin"; "Dest"]
      [ [ [Str "AA"; Str "DFW"; Str "LGA"]; [Str "AA"; Str "LGA"; Str "SEA"] ] ]
      ["LGA"; "DFW"] "AA".
Proof.
  apply filter_file_insensitive.
  - vm_compute. reflexivity.
  - intros k.
    replace (map code_key [" dfw"; "LGA "; "dfw"]) with (map code_key ["DFW"; "LGA"; "DFW"])
      by (vm_compute; reflexivity).
    cbn [map]. rewrite !elem_of_cons, !elem_of_nil. tauto.
Defined.
